(** * nevergrad: the parameter tree (Array, ParametersList, Tuple, Instrumentation)

    A shallow embedding of

    - [nevergrad/instrumentation/parameter.py]  ([Array], [ParametersList]),
    - [nevergrad/parametrization/container.py]  ([Tuple], [Instrumentation]),

    together with the part of NumPy and of the Python object model these
    classes rely on.  Python methods become computations in a small
    state-and-exception monad whose state holds the receiver ([self]) and the
    store of the mutable objects it can reach. *)

From Stdlib Require Import ZArith QArith Qcanon String Ascii List.
From Stdlib Require Import DecimalString DecimalNat.
From stdpp Require Import base numbers option list gmap strings sorting.

Set Warnings "-register-all".

Local Open Scope string_scope.
Local Open Scope list_scope.

(** ** Python: exceptions, results, the method monad *)

Module Py.

(** A dictionary key: the containers of the two packages use [str] keys
    ([ParametersList], [Dict]) and [int] keys ([Tuple]). *)
Inductive key :=
| KInt (z : Z)
| KStr (s : string).

#[global] Instance key_eq_dec : EqDecision key.
Proof. solve_decision. Defined.

(** The exceptions the embedded code can raise; each carries what Python
    attaches to it (a message, or the missing key). *)
Inductive exn :=
| TypeError (msg : string)
| ValueError (msg : string)
| KeyError (k : key)
| IndexError (msg : string)
| AssertionError (msg : string)
| ReferenceError (msg : string).

Inductive result (A : Type) :=
| Ok (a : A)
| Raise (e : exn).
Arguments Ok {A} a.
Arguments Raise {A} e.

#[global] Instance exn_eq_dec : EqDecision exn.
Proof. solve_decision. Defined.

#[global] Instance result_eq_dec {A} `{EqDecision A} : EqDecision (result A).
Proof. solve_decision. Defined.

(** A method body: it runs on a state [S], ends normally with a value or
    raises, and in both cases leaves a state behind (what was assigned
    before a [raise] stays assigned). *)
Definition M (S A : Type) : Type := S -> result A * S.

Definition ret {S A} (a : A) : M S A := fun s => (Ok a, s).

Definition bind {S A B} (m : M S A) (f : A -> M S B) : M S B :=
  fun s => match m s with
           | (Ok a, s') => f a s'
           | (Raise e, s') => (Raise e, s')
           end.

Definition raise {S A} (e : exn) : M S A := fun s => (Raise e, s).

Definition get {S} : M S S := fun s => (Ok s, s).

Definition gets {S A} (f : S -> A) : M S A := fun s => (Ok (f s), s).

Definition put {S} (s : S) : M S unit := fun _ => (Ok tt, s).

Definition modify {S} (f : S -> S) : M S unit := fun s => (Ok tt, f s).

(** A pure computation that may raise, run inside a method. *)
Definition lift {S A} (r : result A) : M S A := fun s => (r, s).

(** [for x in xs: body x] *)
Fixpoint for_each {S A} (xs : list A) (body : A -> M S unit) : M S unit :=
  match xs with
  | [] => ret tt
  | x :: xs' => bind (body x) (fun _ => for_each xs' body)
  end.

(** [[f(x) for x in xs]] *)
Fixpoint comprehension {S A B} (xs : list A) (f : A -> M S B) : M S (list B) :=
  match xs with
  | [] => ret []
  | x :: xs' => bind (f x) (fun y => bind (comprehension xs' f) (fun ys => ret (y :: ys)))
  end.

(** [enumerate(xs, start)] and [enumerate(xs)] *)
Definition enumerate_from {A} (start : nat) (xs : list A) : list (nat * A) :=
  zip (seq start (length xs)) xs.

Definition enumerate {A} (xs : list A) : list (nat * A) := enumerate_from 0 xs.

(** Sequencing for an expression that may raise and touches no state. *)
Definition and_then {A B} (r : result A) (f : A -> result B) : result B :=
  match r with
  | Ok a => f a
  | Raise e => Raise e
  end.

(** The results of a pure comprehension whose element expression may raise:
    the first [raise] ends it. *)
Fixpoint sequence {A} (rs : list (result A)) : result (list A) :=
  match rs with
  | [] => Ok []
  | r :: rs' => and_then r (fun a => and_then (sequence rs') (fun l => Ok (a :: l)))
  end.

(** [sorted(xs, key=key)]: the key of every element is computed first, then
    the elements are put in the order of their keys.  The sort is stable (an
    element goes before the elements of an equal key that come after it),
    which fixes the result whatever algorithm computes it. *)
Fixpoint insert_by_key {A} (x : Z * A) (l : list (Z * A)) : list (Z * A) :=
  match l with
  | [] => [x]
  | y :: l' => if (fst x <=? fst y)%Z then x :: l else y :: insert_by_key x l'
  end.

Definition sort_by_key {A} (l : list (Z * A)) : list (Z * A) :=
  foldr insert_by_key [] l.

Definition sorted {A} (key : A -> result Z) (xs : list A) : result (list A) :=
  and_then (sequence (map key xs)) (fun ks => Ok (map snd (sort_by_key (zip ks xs)))).

End Py.
Export Py.

Notation "x <- m ;; k" := (bind m (fun x => k))
  (at level 100, m at next level, right associativity).
Notation "'do' m ;; k" := (bind m (fun _ => k))
  (at level 100, m at next level, right associativity).
Notation "x <~ r ;; k" := (and_then r (fun x => k))
  (at level 100, r at next level, right associativity).

(** ** Python strings: the characters and conversions the code uses *)

Module PyStr.

(** The double quote, written by its code. *)
Definition dquote : string := String (ascii_of_nat 34) EmptyString.

(** [str(n)] for a non-negative [int]. *)
Definition str_of_nat (n : nat) : string :=
  NilEmpty.string_of_uint (Nat.to_uint n).

Definition digit_of_char (c : ascii) : option nat :=
  let n := nat_of_ascii c in
  if (48 <=? n)%nat && (n <=? 57)%nat then Some (n - 48)%nat else None.

(** The white space [int()] strips, among the characters of code below
    256: space, [\t], [\n], [\v], [\f], [\r], and the next-line and
    no-break-space characters. *)
Definition is_space (c : ascii) : bool :=
  let n := nat_of_ascii c in
  (n =? 32)%nat || ((9 <=? n)%nat && (n <=? 13)%nat) || (n =? 133)%nat || (n =? 160)%nat.

Fixpoint all_space (s : string) : bool :=
  match s with
  | EmptyString => true
  | String c r => is_space c && all_space r
  end.

Fixpoint lstrip (s : string) : string :=
  match s with
  | EmptyString => EmptyString
  | String c r => if is_space c then lstrip r else s
  end.

(** The digits of an [int()] literal: decimal digits, single underscores
    allowed between two digits, trailing white space allowed.  [acc] is the
    value read so far and [after_digit] tells whether the previous character
    was a digit. *)
Fixpoint int_digits (s : string) (acc : nat) (after_digit : bool) : option nat :=
  match s with
  | EmptyString => if after_digit then Some acc else None
  | String c r =>
      match digit_of_char c with
      | Some d => int_digits r (d + 10 * acc) true
      | None =>
          if after_digit && Ascii.eqb c "_" then
            match r with
            | String c' _ =>
                match digit_of_char c' with
                | Some _ => int_digits r acc false
                | None => None
                end
            | EmptyString => None
            end
          else if after_digit && all_space s then Some acc
          else None
      end
  end.

(** [repr(s)] for a [str]: between single quotes, or between double quotes
    when [s] has a single quote and no double quote; the backslash, the
    quote in use, tab, newline and carriage return are escaped with a
    backslash, and the other characters that are not printable are written
    [\xhh]. *)
Definition backslash : ascii := ascii_of_nat 92.

Definition hex_digit (n : nat) : ascii :=
  ascii_of_nat (if (n <? 10)%nat then 48 + n else 87 + n).

Definition printable (c : ascii) : bool :=
  let n := nat_of_ascii c in
  ((32 <=? n)%nat && (n <? 127)%nat) || ((160 <? n)%nat && negb (n =? 173)%nat).

Definition repr_char (quote c : ascii) : string :=
  let n := nat_of_ascii c in
  let escaped (x : ascii) := String backslash (String x EmptyString) in
  if Ascii.eqb c backslash then escaped backslash
  else if Ascii.eqb c quote then escaped quote
  else if (n =? 9)%nat then escaped "t"%char
  else if (n =? 10)%nat then escaped "n"%char
  else if (n =? 13)%nat then escaped "r"%char
  else if printable c then String c EmptyString
  else String backslash
         (String "x"%char
            (String (hex_digit (n / 16)) (String (hex_digit (n mod 16)) EmptyString))).

Definition repr_str (s : string) : string :=
  let chars := list_ascii_of_string s in
  let has (c : ascii) := existsb (Ascii.eqb c) chars in
  let quote := if has "'"%char && negb (has (ascii_of_nat 34)) then ascii_of_nat 34
               else "'"%char in
  String quote
         (fold_right (fun c acc => repr_char quote c +:+ acc) (String quote EmptyString) chars).

(** [int(s)] for a [str] of characters of code below 256: white space is stripped, an
    optional sign is read, then the digits; anything else is a
    [ValueError], whose message ends with the first 200 characters of
    [repr(s)]. *)
Definition int_of_str (s : string) : result Z :=
  let bad := Raise (ValueError ("invalid literal for int() with base 10: "
                                +:+ String.substring 0 200 (repr_str s))) in
  match lstrip s with
  | String c r =>
      if Ascii.eqb c "-" then
        match int_digits r 0 false with Some n => Ok (- Z.of_nat n)%Z | None => bad end
      else if Ascii.eqb c "+" then
        match int_digits r 0 false with Some n => Ok (Z.of_nat n) | None => bad end
      else
        match int_digits (String c r) 0 false with Some n => Ok (Z.of_nat n) | None => bad end
  | EmptyString => bad
  end.

(** [int(k)] for a dictionary key. *)
Definition int_of_key (k : key) : result Z :=
  match k with
  | KInt z => Ok z
  | KStr s => int_of_str s
  end.

(** The integer the key of an entry stands for (0 for a key that [int()]
    rejects). *)
Definition key_index {V} (x : key * V) : Z :=
  match int_of_key (fst x) with
  | Ok z => z
  | Raise _ => 0%Z
  end.

(** [repr] of a tuple of non-negative ints, as NumPy prints a shape:
    [()], [(3,)], [(2, 3)]. *)
Definition join (sep : string) (xs : list string) : string :=
  match xs with
  | [] => ""
  | x :: rest => fold_left (fun acc y => acc +:+ sep +:+ y) rest x
  end.

Definition repr_shape (shape : list nat) : string :=
  match shape with
  | [n] => "(" +:+ str_of_nat n +:+ ",)"
  | _ => "(" +:+ join ", " (map str_of_nat shape) +:+ ")"
  end.

End PyStr.
Export PyStr.

(** ** NumPy: floating-point values and arrays

    A float is modelled by its value: a rational, an infinity or NaN.  The
    finite floats are the rationals that a double holds, and the result of
    an operation on them is the double that IEEE 754 gives: the exact result
    rounded to the nearest double, ties to even, and an infinity on
    overflow.  The operations on the infinities, on NaN and on a zero
    divisor follow IEEE 754 too, as NumPy's array arithmetic does (a
    division by zero yields an infinity or NaN, it does not raise).  The two
    zeros of IEEE 754 are one value here: they are equal as floats, and the
    code divides by a sigma or by a count only, never by a computed zero. *)

Module NumPy.

Inductive float64 :=
| Fin (q : Qc)
| Inf (negative : bool)
| NaN.

#[global] Instance float64_eq_dec : EqDecision float64.
Proof. solve_decision. Defined.

Definition negativeb (q : Qc) : bool :=
  match (q ?= 0)%Qc with Lt => true | _ => false end.

Definition zerob (q : Qc) : bool :=
  match (q ?= 0)%Qc with Eq => true | _ => false end.

(** The finite doubles are the numbers [m * 2^e] with [|m| < 2^53] and
    [-1074 <= e <= 971].  A rational in lowest terms is one of them when
    its denominator is a power of two up to [2^1074], its numerator is
    below [2^1024], and the numerator has no more than 53 significant
    bits. *)
Definition representableb (q : Qc) : bool :=
  let n := Z.abs (Qnum q) in
  let d := Zpos (Qden q) in
  (d =? 2 ^ Z.log2 d)%Z && (Z.log2 d <=? 1074)%Z
  && (n <? 2 ^ 1024)%Z && (n mod 2 ^ Z.max 0 (Z.log2 n - 52) =? 0)%Z.

(** A value of the model is a float of the program when it is a double. *)
Definition is_double (x : float64) : bool :=
  match x with
  | Fin q => representableb q
  | _ => true
  end.

(** The double nearest to [q], ties to even.  [b] is the binary exponent
    of [|q|] ([2^b <= |q| < 2^(b+1)]) and [2^e] the spacing of the doubles
    around [|q|] (that of the subnormal doubles for a small [q]); [|q| / 2^e]
    is rounded to the nearest integer [m], to the even one of the two when
    it is halfway, and the result is [m * 2^e] with the sign of [q], or the
    infinity of that sign when [m * 2^e] reaches [2^1024]. *)
Definition nearest_double (q : Qc) : float64 :=
  let n := Z.abs (Qnum q) in
  let d := Zpos (Qden q) in
  let b0 := (Z.log2 n - Z.log2 d)%Z in
  let b := if (d * 2 ^ Z.max 0 b0 <=? n * 2 ^ Z.max 0 (- b0))%Z then b0 else (b0 - 1)%Z in
  let e := Z.max (-1074) (b - 52) in
  let num := (n * 2 ^ Z.max 0 (- e))%Z in
  let den := (d * 2 ^ Z.max 0 e)%Z in
  let f := (num / den)%Z in
  let r := (num mod den)%Z in
  let m := if (2 * r <? den)%Z then f
           else if (den <? 2 * r)%Z then (f + 1)%Z
           else if Z.even f then f else (f + 1)%Z in
  if (2 ^ 1024 <=? m * 2 ^ Z.max 0 e)%Z then Inf (Qnum q <? 0)%Z
  else Fin (Q2Qc (Qmake (Z.sgn (Qnum q) * m * 2 ^ Z.max 0 e)
                        (Z.to_pos (2 ^ Z.max 0 (- e))))).

(** IEEE 754 rounding of an exact result: a result that is a double is
    delivered as it is, any other is rounded to the nearest double. *)
Definition rounded (q : Qc) : float64 :=
  if representableb q then Fin q else nearest_double q.

Definition fadd (x y : float64) : float64 :=
  match x, y with
  | NaN, _ | _, NaN => NaN
  | Fin a, Fin b => rounded (a + b)%Qc
  | Fin _, Inf s | Inf s, Fin _ => Inf s
  | Inf s, Inf t => if Bool.eqb s t then Inf s else NaN
  end.

Definition fmul (x y : float64) : float64 :=
  match x, y with
  | NaN, _ | _, NaN => NaN
  | Fin a, Fin b => rounded (a * b)%Qc
  | Fin a, Inf s | Inf s, Fin a => if zerob a then NaN else Inf (xorb (negativeb a) s)
  | Inf s, Inf t => Inf (xorb s t)
  end.

Definition fdiv (x y : float64) : float64 :=
  match x, y with
  | NaN, _ | _, NaN => NaN
  | Fin a, Fin b =>
      if zerob b then (if zerob a then NaN else Inf (negativeb a))
      else rounded (a / b)%Qc
  | Fin _, Inf _ => Fin 0%Qc
  | Inf s, Fin b => Inf (xorb s (negativeb b))
  | Inf _, Inf _ => NaN
  end.

(** [float(n)] for a non-negative [int]. *)
Definition float_of_nat (n : nat) : float64 := rounded (Qc_of_Z (Z.of_nat n)).

(** An [ndarray]: its shape and its elements in row-major (C) order.  The
    arrays of the model are arrays of floats (dtype [float64]), the arrays
    that [np.zeros] and the arithmetic of [Array] make; an array of
    another dtype, which the value setter of [Array] takes as well, is not
    represented. *)
Record ndarray := mk_ndarray {
  np_shape : list nat;
  np_data : list float64
}.

#[global] Instance ndarray_eq_dec : EqDecision ndarray.
Proof. solve_decision. Defined.

(** The number of elements a shape holds. *)
Definition size_of (shape : list nat) : nat := fold_right Nat.mul 1%nat shape.


(** [np.zeros(shape)]: a negative dimension is a [ValueError].  NumPy also
    refuses a shape that is too big for the machine (one whose size in
    bytes overflows, or for which the memory is lacking); the store of the
    model has no such limit. *)
Definition zeros (shape : list Z) : result ndarray :=
  if forallb (fun d => 0 <=? d)%Z shape then
    let sh := map Z.to_nat shape in
    Ok (mk_ndarray sh (replicate (size_of sh) (Fin 0%Qc)))
  else Raise (ValueError "negative dimensions are not allowed").

(** A shape as NumPy prints it in its own error messages: [()], [(3,)],
    [(2,3)], without the space that Python puts in the [repr] of a
    tuple. *)
Definition shape_string (shape : list nat) : string :=
  match shape with
  | [n] => "(" +:+ str_of_nat n +:+ ",)"
  | _ => "(" +:+ join "," (map str_of_nat shape) +:+ ")"
  end.

(** [a.reshape(shape)] for a [shape] taken from an existing array. *)
Definition reshape (a : ndarray) (shape : list nat) : result ndarray :=
  if (size_of (np_shape a) =? size_of shape)%nat then
    Ok (mk_ndarray shape (np_data a))
  else
    Raise (ValueError ("cannot reshape array of size " +:+ str_of_nat (size_of (np_shape a))
                       +:+ " into shape " +:+ shape_string shape)).

(** [a.ravel()] *)
Definition ravel (a : ndarray) : ndarray :=
  mk_ndarray [size_of (np_shape a)] (np_data a).

(** *** Broadcasting *)

(** The common shape of two shapes, both given last dimension first. *)
Fixpoint broadcast_rev (s1 s2 : list nat) : option (list nat) :=
  match s1, s2 with
  | [], s | s, [] => Some s
  | a :: r1, b :: r2 =>
      match broadcast_rev r1 r2 with
      | Some r =>
          if (a =? b)%nat then Some (a :: r)
          else if (a =? 1)%nat then Some (b :: r)
          else if (b =? 1)%nat then Some (a :: r)
          else None
      | None => None
      end
  end.

Definition broadcast_shapes (s1 s2 : list nat) : result (list nat) :=
  match broadcast_rev (rev s1) (rev s2) with
  | Some r => Ok (rev r)
  | None =>
      Raise (ValueError ("operands could not be broadcast together with shapes "
                         +:+ shape_string s1 +:+ " " +:+ shape_string s2 +:+ " "))
  end.

(** [data] cut into [k] consecutive blocks of [n] elements. *)
Fixpoint blocks {A} (k n : nat) (data : list A) : list (list A) :=
  match k with
  | O => []
  | S k' => take n data :: blocks k' n (drop n data)
  end.

(** The elements of an array of shape [src] repeated to fill the shape
    [tgt], two shapes of the same length in which every dimension of [src]
    is the one of [tgt] or 1. *)
Fixpoint expand (src tgt : list nat) (data : list float64) : list float64 :=
  match src, tgt with
  | s :: src', t :: tgt' =>
      if (s =? t)%nat then
        concat (map (expand src' tgt') (blocks s (size_of src') data))
      else
        concat (replicate t (expand src' tgt' data))
  | _, _ => data
  end.

Definition broadcast_to (a : ndarray) (tgt : list nat) : list float64 :=
  let pad := replicate (length tgt - length (np_shape a)) 1%nat in
  expand (pad ++ np_shape a) tgt (np_data a).

(** An elementwise binary operation of two arrays. *)
Definition binary (op : float64 -> float64 -> float64) (a b : ndarray) : result ndarray :=
  match broadcast_shapes (np_shape a) (np_shape b) with
  | Ok sh => Ok (mk_ndarray sh (zip_with op (broadcast_to a sh) (broadcast_to b sh)))
  | Raise e => Raise e
  end.

(** The right operand of [sigma * data] and of [value / sigma]: the value
    of a hyper-parameter, a Python [float] or an array. *)
Inductive operand :=
| Scalar (x : float64)
| Arr (a : ndarray).

#[global] Instance operand_eq_dec : EqDecision operand.
Proof. solve_decision. Defined.

(** [x * a] *)
Definition multiply (x : operand) (a : ndarray) : result ndarray :=
  match x with
  | Scalar s => Ok (mk_ndarray (np_shape a) (map (fmul s) (np_data a)))
  | Arr b => binary fmul b a
  end.

(** [a / x] *)
Definition divide (a : ndarray) (x : operand) : result ndarray :=
  match x with
  | Scalar s => Ok (mk_ndarray (np_shape a) (map (fun v => fdiv v s) (np_data a)))
  | Arr b => binary fdiv a b
  end.

(** The leading dimensions that two shapes have in common. *)
Fixpoint common_prefix (s1 s2 : list nat) : list nat :=
  match s1, s2 with
  | a :: r1, b :: r2 => if (a =? b)%nat then a :: common_prefix r1 r2 else []
  | _, _ => []
  end.

(** [np.mean(rows, axis=0)] for a Python list of arrays: the list becomes
    one array (all rows must have one shape), the rows are summed
    elementwise and the sum is divided by their number.  The rows are
    added here one after the other; the order in which NumPy adds them
    depends on the layout of the array (it adds in pairs along a
    contiguous axis), so what is stated of a mean below is stated for sums
    that no order changes ([exact_sums]).  For rows of different shapes
    NumPy (from 1.24 on) raises a [ValueError] that tells the dimensions it
    found to agree. *)
Definition mean_axis0 (rows : list ndarray) : result ndarray :=
  match rows with
  | [] => Ok (mk_ndarray [] [NaN])
  | r :: rest =>
      if forallb (fun r' => bool_decide (np_shape r' = np_shape r)) rest then
        let total := fold_left (fun acc r' => zip_with fadd acc (np_data r')) rest (np_data r) in
        Ok (mk_ndarray (np_shape r) (map (fun v => fdiv v (float_of_nat (length rows))) total))
      else
        let detected :=
          length rows :: fold_left (fun acc r' => common_prefix acc (np_shape r')) rest
                                   (np_shape r) in
        Raise (ValueError ("setting an array element with a sequence. The requested array has "
                           +:+ "an inhomogeneous shape after " +:+ str_of_nat (length detected)
                           +:+ " dimensions. The detected shape was " +:+ repr_shape detected
                           +:+ " + inhomogeneous part."))
  end.


(** The [j]-th element of each row. *)
Definition column (j : nat) (rows : list ndarray) : list float64 :=
  map (fun r => default NaN (np_data r !! j)) rows.

(** [a.flat[i] = x]: the in-place update of one element. *)
Definition setitem (a : ndarray) (i : Z) (x : float64) : result ndarray :=
  let n := Z.of_nat (length (np_data a)) in
  if ((- n <=? i) && (i <? n))%Z then
    let j := Z.to_nat (if (i <? 0)%Z then i + n else i)%Z in
    Ok (mk_ndarray (np_shape a) (<[j := x]> (np_data a)))
  else Raise (IndexError "index out of bounds").

End NumPy.
Export NumPy.

(** ** Python values and the store of arrays *)

Module Objects.

(** The identity of an [ndarray] object. *)
Definition loc := nat.

(** The Python values that are passed to and returned by the methods.  An
    array is a reference into the store: two values [VArray l] with the same
    [l] are one object, and an in-place update of it is seen through both.
    A value of this type is no Parameter: the assignment of a Parameter
    object to an entry of a container is not represented. *)
Inductive pyval :=
| VNone
| VBool (b : bool)
| VInt (z : Z)
| VFloat (x : float64)
| VStr (s : string)
| VArray (l : loc)
| VList (vs : list pyval)
| VTuple (vs : list pyval)
| VDict (kvs : list (string * pyval)).

(** [str(type(v))], as an f-string prints it. *)
Definition type_repr (v : pyval) : string :=
  match v with
  | VNone => "<class 'NoneType'>"
  | VBool _ => "<class 'bool'>"
  | VInt _ => "<class 'int'>"
  | VFloat _ => "<class 'float'>"
  | VStr _ => "<class 'str'>"
  | VArray _ => "<class 'numpy.ndarray'>"
  | VList _ => "<class 'list'>"
  | VTuple _ => "<class 'tuple'>"
  | VDict _ => "<class 'dict'>"
  end.

(** The state a method of a [T] object runs on: the object and the arrays. *)
Record state (T : Type) := mk_state {
  self : T;
  heap : gmap loc ndarray
}.
Arguments mk_state {T} self heap.
Arguments self {T} s.
Arguments heap {T} s.

#[global] Instance state_eq_dec {T} `{EqDecision T} : EqDecision (state T).
Proof. solve_decision. Defined.

(** A new array object: it gets an identity no array of the store has. *)
Definition alloc {T} (a : ndarray) : M (state T) loc :=
  fun s => let l := fresh (dom (heap s)) in
           (Ok l, mk_state (self s) (<[l := a]> (heap s))).

(** The array behind a reference. *)
Definition deref {T} (l : loc) : M (state T) ndarray :=
  fun s => match heap s !! l with
           | Some a => (Ok a, s)
           | None => (Raise (ReferenceError "no such array"), s)
           end.

(** [setattr(self, ...)] *)
Definition set_self {T} (f : T -> T) : M (state T) unit :=
  fun s => (Ok tt, mk_state (f (self s)) (heap s)).

(** A method [m] called on an object [p] that [self] holds: it runs on [p]
    and the current arrays, and [back] puts [p], as the call left it, back
    in its place in [self] (also when the call raised). *)
Definition call_on {T P A} (p : P) (back : P -> T -> T) (m : M (state P) A) : M (state T) A :=
  fun s => let (r, s') := m (mk_state p (heap s)) in
           (r, mk_state (back (self s') (self s)) (heap s')).

(** A method called on an object that [self] does not hold. *)
Definition call {T P A} (p : P) (m : M (state P) A) : M (state T) A :=
  call_on p (fun _ t => t) m.

(** What a container stores under a key: any Python object, a Parameter
    (of a class [P]) or not: the two cases of [isinstance(p, Parameter)]. *)
Inductive item (P : Type) :=
| Raw (v : pyval)
| Param (p : P).
Arguments Raw {P} v.
Arguments Param {P} p.

(** A [dict], in insertion order.  [d[key]]: *)
Fixpoint dict_get {V} (d : list (key * V)) (k : key) : result V :=
  match d with
  | [] => Raise (KeyError k)
  | (k', x) :: d' => if bool_decide (k' = k) then Ok x else dict_get d' k
  end.

(** [d[key] = x]: the entry of an existing key is replaced where it is, a
    new key is added at the end. *)
Fixpoint dict_set {V} (d : list (key * V)) (k : key) (x : V) : list (key * V) :=
  match d with
  | [] => [(k, x)]
  | (k', y) :: d' =>
      if bool_decide (k' = k) then (k', x) :: d' else (k', y) :: dict_set d' k x
  end.

(** [d.update(kvs)] *)
Definition dict_update {V} (d : list (key * V)) (kvs : list (key * V)) : list (key * V) :=
  fold_left (fun d kv => dict_set d (fst kv) (snd kv)) kvs d.

(** A computation keeps the arrays of the store: it may add arrays, it
    changes none. *)
Definition keeps_arrays {T A} (m : M (state T) A) : Prop :=
  forall s l x, heap s !! l = Some x -> heap (snd (m s)) !! l = Some x.

(** [a.flat[i] = x] on the array object [l]. *)
Definition setitem_at {T} (l : loc) (i : Z) (x : float64) : M (state T) unit :=
  a <- deref l ;;
  a' <- lift (setitem a i x) ;;
  fun s => (Ok tt, mk_state (self s) (<[l := a']> (heap s))).

End Objects.
Export Objects.

(** ** nevergrad/instrumentation/parameter.py *)

Module Core3.

(** Modelled from the spec: the base class [Parameter] (core3, not in src),
    as far as the classes of this file use it: a Parameter has a [value]
    that can be read and assigned. *)
Class IsParameter (P : Type) := {
  value_of : P -> result pyval;
  set_value_of : pyval -> M (state P) unit
}.

(** [p.value if isinstance(p, Parameter) else p] *)
Definition item_value {P} `{IsParameter P} (x : item P) : result pyval :=
  match x with
  | Param p => value_of p
  | Raw v => Ok v
  end.

End Core3.

(** *** class Array(Parameter) *)

Module Array.

(** The attributes of an [Array].  [shape], [sigma], [distribution] and
    [recombination] are the sub-parameters [__init__] hands to
    [Parameter.__init__]; [_value] is the reference to the current array.
    The hyper-parameters are held by their current value: for [sigma] the
    float, or the array that an [Array]-valued sigma holds. *)
Record t := mk {
  shape : list Z;
  sigma : operand;
  distribution : string;
  recombination : string;
  _value : loc
}.

#[global] Instance t_eq_dec : EqDecision t.
Proof. solve_decision. Defined.

Definition with__value (l : loc) (a : t) : t :=
  mk (shape a) (sigma a) (distribution a) (recombination a) l.

(** The shape given at construction, as NumPy holds it. *)
Definition declared_shape (a : t) : list nat := map Z.to_nat (shape a).

(** What [__init__] establishes and every method keeps: [_value] is an
    array of the store, and it has the declared shape. *)
Definition consistent (s : state t) : Prop :=
  exists cur, heap s !! _value (self s) = Some cur
              /\ np_shape cur = declared_shape (self s).

(** Modelled from the spec: [Parameter._get_parameter_value] (core3, not in
    src) gives the current value of the named hyper-parameter: the constant
    given at construction, or the value of the Parameter given for it. *)
Definition _get_parameter_value_sigma : M (state t) operand :=
  gets (fun s => sigma (self s)).

Definition _get_parameter_value_recombination : M (state t) string :=
  gets (fun s => recombination (self s)).

(** [Array.__init__]: the arguments are kept as they are given ([shape]
    is a tuple of ints, so the [assert] on it holds) and
    [self._value = np.zeros(shape)].  The new object is the result; the
    state is the one of the caller. *)
Definition __init__ {T} (shape : list Z) (sigma : operand)
    (distribution recombination : string) : M (state T) t :=
  z <- lift (zeros shape) ;;
  l <- alloc z ;;
  ret (mk shape sigma distribution recombination l).

(** [Array.value] (getter): [return self._value], the array object itself. *)
Definition value (self : t) : loc := _value self.

(** [Array.value] (setter). *)
Definition set_value (value : pyval) : M (state t) unit :=
  match value with
  | VArray l =>
      cur <- (s <- get ;; deref (_value (self s))) ;;
      new <- deref l ;;
      if bool_decide (np_shape cur <> np_shape new) then
        raise (ValueError ("Cannot set array of shape " +:+ repr_shape (np_shape cur)
                           +:+ " with value of shape " +:+ repr_shape (np_shape new)))
      else set_self (with__value l)
  | _ =>
      raise (TypeError ("Received a " +:+ type_repr value +:+ " in place of a np.ndarray"))
  end.

(** [Array.with_std_data]:
    [self._value = (sigma * data).reshape(self.value.shape)]. *)
Definition with_std_data (data : ndarray) (deterministic : bool) : M (state t) unit :=
  sigma <- _get_parameter_value_sigma ;;
  scaled <- lift (multiply sigma data) ;;
  cur <- (s <- get ;; deref (value (self s))) ;;
  new <- lift (reshape scaled (np_shape cur)) ;;
  l <- alloc new ;;
  set_self (with__value l).

(** Modelled from the spec: [Parameter.spawn_child] (core3, not in src)
    returns a new node of the same topology: a new [Array] built from the
    hyper-parameters of [self]. *)
Definition super_spawn_child : M (state t) t :=
  s <- get ;;
  let a := self s in
  __init__ (shape a) (sigma a) (distribution a) (recombination a).

(** [Array.spawn_child]: [child._value = self.value]. *)
Definition spawn_child : M (state t) t :=
  child <- super_spawn_child ;;
  s <- get ;;
  ret (with__value (value (self s)) child).

(** [Array.to_std_data] *)
Definition to_std_data : M (state t) ndarray :=
  sigma <- _get_parameter_value_sigma ;;
  cur <- (s <- get ;; deref (_value (self s))) ;;
  reduced <- lift (divide cur sigma) ;;
  ret (ravel reduced).

(** [Array.recombine] *)
Definition recombine (others : list t) : M (state t) unit :=
  recomb <- _get_parameter_value_recombination ;;
  s <- get ;;
  let all_p := self s :: others in
  if String.eqb recomb "average" then
    rows <- comprehension all_p (fun p => call p to_std_data) ;;
    m <- lift (mean_axis0 rows) ;;
    with_std_data m true
  else
    raise (ValueError ("Unknown recombination " +:+ dquote +:+ recomb +:+ dquote)).


(** The methods that change the value of an Array. *)
Inductive mutator : M (state t) unit -> Prop :=
| mutator_set_value (v : pyval) : mutator (set_value v)
| mutator_with_std_data (d : ndarray) (det : bool) : mutator (with_std_data d det)
| mutator_recombine (others : list t) : mutator (recombine others).

#[global] Instance Array_IsParameter : Core3.IsParameter t := {|
  Core3.value_of a := Ok (VArray (value a));
  Core3.set_value_of := set_value
|}.

End Array.

(** *** class ParametersList(ParametersDict) *)

Module ParametersList.
Import Core3.

Section ParametersList.
Context {P : Type} `{IsParameter P}.

(** [self._parameters]: a [dict] from [str] to any object. *)
Record t := mk {
  _parameters : list (key * item P)
}.

(** [ParametersList.__init__] calls [ParametersDict.__init__] with the
    keyword arguments [{str(k): p for k, p in enumerate(parameters)}], and
    [ParametersDict.__init__] (core3, not in src) keeps its keyword
    arguments as [_parameters]. *)
Definition __init__ (parameters : list (item P)) : t :=
  mk (map (fun kp => (KStr (str_of_nat (fst kp)), snd kp)) (enumerate parameters)).

(** [ParametersList.value] (getter) *)
Definition value (self : t) : result pyval :=
  sorted_items <~ sorted (fun x => int_of_key (fst x)) (_parameters self) ;;
  let param_val := map snd sorted_items in
  vs <~ sequence (map item_value param_val) ;;
  Ok (VList vs).

(** [ParametersList.value] (setter): the body of its loop, for the pair
    [(k, val)] of [enumerate(value)], and the setter.  An entry that is no
    Parameter is replaced by [val], which here is a value that is no
    Parameter either. *)
Definition set_item (kv : nat * pyval) : M (state t) unit :=
  let key := KStr (str_of_nat (fst kv)) in
  let val := snd kv in
  param <- (s <- get ;; lift (dict_get (_parameters (self s)) key)) ;;
  match param with
  | Raw _ =>
      set_self (fun self => mk (dict_set (_parameters self) key (Raw val)))
  | Param p =>
      call_on p (fun p' self => mk (dict_set (_parameters self) key (Param p')))
              (set_value_of val)
  end.

Definition set_value (value : pyval) : M (state t) unit :=
  match value with
  | VList vs => for_each (enumerate vs) set_item
  | _ => raise (AssertionError "")
  end.

(** The entries that the constructor stores for the arguments [qs] that
    follow [n] others. *)
Definition entries_from (n : nat) (qs : list (item P)) : list (key * item P) :=
  map (fun kp => (KStr (str_of_nat (fst kp)), snd kp)) (enumerate_from n qs).

(** The receiver with more entries at the end of [_parameters]. *)
Definition extend (s : state t) (rest : list (key * item P)) : state t :=
  mk_state (mk (_parameters (self s) ++ rest)) (heap s).

End ParametersList.
Arguments t P : clear implicits.

#[global] Instance ParametersList_IsParameter {P} `{IsParameter P} : IsParameter (t P) := {|
  value_of := value;
  set_value_of := set_value
|}.

End ParametersList.

(** ** nevergrad/parametrization/container.py *)

Module Core.

(** Modelled from the spec: what [container.py] uses of [core.py] (not in
    src).  A Parameter has a [value] that can be read and assigned, and
    [spawn_child] gives an independently owned copy of it; a node owns its
    subtree, so a method of a node runs on the node alone.  [constant v] is
    the Parameter that [as_parameter] makes of an object [v] that is not
    one, and [_sanity_check] is the check of the children that the
    constructors run. *)
Class IsParameter (P : Type) := {
  value_of : P -> result pyval;
  set_value_of : pyval -> M P unit;
  spawn_child_of : P -> P;
  constant : pyval -> P;
  _sanity_check : list (item P) -> result unit
}.

(** [core.as_parameter] *)
Definition as_parameter {P} `{IsParameter P} (x : item P) : P :=
  match x with
  | Param p => p
  | Raw v => constant v
  end.

(** [p.value if isinstance(p, core.Parameter) else p] *)
Definition item_value {P} `{IsParameter P} (x : item P) : result pyval :=
  match x with
  | Param p => value_of p
  | Raw v => Ok v
  end.

(** A method [m] called on an object [p] that [self] holds; [back] puts
    [p], as the call left it, back in its place in [self]. *)
Definition call_on {T P A} (p : P) (back : P -> T -> T) (m : M P A) : M T A :=
  fun s => let (r, p') := m p in (r, back p' s).

End Core.

Module Constant.
Import Core.

Definition t := pyval.

(** Modelled from the spec: the Parameter that holds one Python object (a
    constant that a container holds, spec 4.3).  Its value is the object,
    assigning the value replaces the object, the child it spawns holds the
    same object, and a check of such children finds nothing. *)
#[global] Instance Constant_IsParameter : IsParameter t := {|
  value_of v := Ok v;
  set_value_of v := put v;
  spawn_child_of v := v;
  constant v := v;
  _sanity_check _ := Ok tt
|}.

End Constant.

(** *** class Tuple(Dict) *)

Module Tuple.
Import Core.

Section Tuple.
Context {P : Type} `{IsParameter P}.

(** [self._parameters]: the keys of a [Tuple] are the [int] positions. *)
Record t := mk {
  _parameters : list (key * item P)
}.

(** [Tuple.__init__]: [Dict.__init__] without arguments leaves
    [_parameters] empty. *)
Definition __init__ (parameters : list (item P)) : result t :=
  let _parameters :=
    dict_update []
      (map (fun kp => (KInt (Z.of_nat (fst kp)), Param (as_parameter (snd kp))))
           (enumerate parameters)) in
  _ <~ _sanity_check (map snd _parameters) ;;
  Ok (mk _parameters).

(** [Tuple.value] (getter) *)
Definition value (self : t) : result pyval :=
  sorted_items <~ sorted (fun x => int_of_key (fst x)) (_parameters self) ;;
  let param_val := map snd sorted_items in
  vs <~ sequence (map item_value param_val) ;;
  Ok (VTuple vs).

(** Modelled from the spec: [Dict.__getitem__] (core.py, not in src) gives
    the child stored under the key. *)
Definition __getitem__ (k : key) : M t (item P) :=
  s <- get ;; lift (dict_get (_parameters s) k).

(** [Tuple.value] (setter): the body of its loop,
    [core.as_parameter(self[k]).value = val], and the setter.  A stored
    Parameter is assigned in place; for another object [as_parameter]
    makes a new Parameter, which nothing keeps. *)
Definition set_item (kv : nat * pyval) : M t unit :=
  let k := KInt (Z.of_nat (fst kv)) in
  let val := snd kv in
  x <- __getitem__ k ;;
  call_on (as_parameter x)
          (fun p' self =>
             match x with
             | Param _ => mk (dict_set (_parameters self) k (Param p'))
             | Raw _ => self
             end)
          (set_value_of val).

Definition set_value (value : pyval) : M t unit :=
  match value with
  | VTuple vs => for_each (enumerate vs) set_item
  | _ => raise (AssertionError "Value must be a tuple")
  end.

(** The entries that the constructor stores for the arguments [qs] that
    follow [n] others. *)
Definition entries_from (n : nat) (qs : list (item P)) : list (key * item P) :=
  map (fun kp => (KInt (Z.of_nat (fst kp)), Param (as_parameter (snd kp))))
      (enumerate_from n qs).

(** The receiver with more entries at the end of [_parameters]. *)
Definition extend (self : t) (rest : list (key * item P)) : t :=
  mk (_parameters self ++ rest).

End Tuple.
Arguments t P : clear implicits.

End Tuple.

(** *** class Instrumentation(Tuple) *)

Module Instrumentation.
Import Core.

(** The identity of an [Instrumentation] object. *)
Definition oid := nat.

Section Instrumentation.
Context {P : Type} `{IsParameter P}.

(** The classes and inherited methods of [core.py] that the class uses and
    that are not in src: a [Tuple] seen as a Parameter, [Dict(kwargs)], the
    [_parameters.values()] of such a child, and the standardized-data
    methods, which run on the children of the receiver. *)
Variable Tuple_as_parameter : Tuple.t P -> P.
Variable Dict__init__ : list (string * item P) -> result P.
Variable _parameters_values : P -> list (item P).
Variable get_standardized_data : M (Tuple.t P) ndarray.
Variable set_standardized_data : ndarray -> bool -> M (Tuple.t P) unit.

(** The attributes of an [Instrumentation]: the children it has as a
    [Tuple], and the memo of the [_compatibility] property, a reference to
    another [Instrumentation] object. *)
Record t := mk {
  _parameters : list (key * item P);
  _compatibility_ : option oid
}.

(** The objects of the class, by identity. *)
Abbreviation store := (gmap oid t).

(** The object behind a reference. *)
Definition attr (self : oid) : M store t :=
  fun st => match st !! self with
            | Some o => (Ok o, st)
            | None => (Raise (ReferenceError "no such object"), st)
            end.

(** A new object: it gets an identity no object of the store has. *)
Definition new (o : t) : M store oid :=
  fun st => let i := fresh (dom st) in (Ok i, <[i := o]> st).

(** A method of [Tuple] called on the object [self]: it runs on the
    children of [self] and leaves the other attributes as they are. *)
Definition as_Tuple {A} (self : oid) (m : M (Tuple.t P) A) : M store A :=
  o <- attr self ;;
  fun st => let (r, t') := m (Tuple.mk (_parameters o)) in
            (r, <[self := mk (Tuple._parameters t') (_compatibility_ o)]> st).

(** [Instrumentation.__init__] *)
Definition __init__ (args : list (item P)) (kwargs : list (string * item P)) : M store oid :=
  a <- lift (Tuple.__init__ args) ;;
  d <- lift (Dict__init__ kwargs) ;;
  super <- lift (Tuple.__init__ [Param (Tuple_as_parameter a); Param d]) ;;
  do lift (_sanity_check (map snd (Tuple._parameters a) ++ _parameters_values d)) ;;
  new (mk (Tuple._parameters super) None).

(** Modelled from the spec: [spawn_child] (core.py, not in src) returns a
    new, independently owned node of the same topology with the current
    value copied in: the children that are Parameters are spawned in turn,
    and the new object starts, as every new [Instrumentation], without a
    memo. *)
Definition spawn_child (self : oid) : M store oid :=
  o <- attr self ;;
  new (mk (map (fun kx => (fst kx,
                           match snd kx with
                           | Param p => Param (spawn_child_of p)
                           | Raw v => Raw v
                           end)) (_parameters o))
          None).

(** [Instrumentation._compatibility] *)
Definition _compatibility (self : oid) : M store oid :=
  o <- attr self ;;
  match _compatibility_ o with
  | None =>
      c <- spawn_child self ;;
      do modify (fun st => <[self := mk (_parameters o) (Some c)]> st) ;;
      ret c
  | Some c => ret c
  end.

(** [Instrumentation.arguments_to_data] *)
Definition arguments_to_data (self : oid) (args : list pyval) (kwargs : list (string * pyval))
    : M store ndarray :=
  c <- _compatibility self ;;
  do as_Tuple c (Tuple.set_value (VTuple [VTuple args; VDict kwargs])) ;;
  c' <- _compatibility self ;;
  as_Tuple c' get_standardized_data.

(** [Instrumentation.value]: the getter of [Tuple], read on the object
    [self]. *)
Definition value (self : oid) : M store pyval :=
  o <- attr self ;;
  lift (Tuple.value (Tuple.mk (_parameters o))).

(** [Instrumentation.data_to_arguments]; [data] is the array that
    [np.array(data, copy=False)] gives. *)
Definition data_to_arguments (self : oid) (data : ndarray) (deterministic : bool)
    : M store pyval :=
  c <- _compatibility self ;;
  do as_Tuple c (set_standardized_data data deterministic) ;;
  c' <- _compatibility self ;;
  value c'.

(** What holds of the memo of an object from its construction on: it is
    unset, or it names another object of the store. *)
Definition memo_ok (st : store) (self : oid) : Prop :=
  match st !! self with
  | Some o =>
      match _compatibility_ o with
      | None => True
      | Some c => c <> self /\ is_Some (st !! c)
      end
  | None => False
  end.

(** What a conversion called on [self] may change in going from the store
    [st] to [st']: the memo of [self], set to the copy [c] if it was unset
    and kept otherwise, and the copy itself; a copy that is made is a new
    object, and no other object is made. *)
Definition conversion_frame (self : oid) (st st' : store) : Prop :=
  exists o c,
    st !! self = Some o
    /\ st' !! self = Some (mk (_parameters o) (Some c))
    /\ c <> self
    /\ is_Some (st' !! c)
    /\ (forall j, j <> self -> j <> c -> st' !! j = st !! j)
    /\ match _compatibility_ o with
       | Some c0 => c = c0 /\ dom st' = dom st
       | None => (c ∉ dom st) /\ (dom st' = {[ c ]} ∪ dom st)
       end.

End Instrumentation.
Arguments t P : clear implicits.

Abbreviation store P := (gmap oid (t P)).

End Instrumentation.

(** ** Concrete objects: the scenarios of the specification *)

Module Scenario.
Import Array.

(** The float of an integer, and the flat array of a list of integers. *)
Definition fl (z : Z) : float64 := Fin (Qc_of_Z z).

Definition vector (zs : list Z) : ndarray := mk_ndarray [length zs] (map fl zs).

(** [Array(shape=(n,), sigma=sigma, recombination=recombination)] built in
    an empty store: the state its methods then run on. *)
Definition construct (n : Z) (sigma : float64) (recombination : string)
    : result (state Array.t) :=
  match __init__ [n] (Scalar sigma) "linear" recombination (mk_state tt ∅) with
  | (Ok a, s) => Ok (mk_state a (heap s))
  | (Raise e, _) => Raise e
  end.

(** [self.value = np.array(zs)] *)
Definition assign (zs : list Z) : M (state Array.t) unit :=
  l <- alloc (vector zs) ;;
  set_value (VArray l).

(** The array that [self.value] is at the moment. *)
Definition current : M (state Array.t) ndarray :=
  s <- get ;; deref (value (self s)).

(** The Array of shape [(3,)] and sigma [2.0], set to [[2, 4, 6]]. *)
Definition array_246 : M (state Array.t) unit := assign [2; 4; 6]%Z.

(** An Array of shape [(1,)] set to [[1]]: with sigma [0.0] its
    standardized data is [[inf]]. *)
Definition array_1 : M (state Array.t) unit := assign [1]%Z.

(** [child = self.spawn_child(); child.value.flat[0] = 9.0]: the in-place
    update of an element of the array that [child.value] returns. *)
Definition spawn_and_update_in_place : M (state Array.t) Array.t :=
  child <- spawn_child ;;
  do setitem_at (value child) 0 (fl 9) ;;
  ret child.

End Scenario.

(** ** What the setters do, position by position *)

Module Assignment.

(** [isinstance(x, Parameter)] *)
Definition is_parameter {P} (x : item P) : bool :=
  match x with
  | Param _ => true
  | Raw _ => false
  end.



(** The child that a [Tuple] made of the constructor argument [x] takes
    the value [val] and becomes [p']: its setter succeeds, and it then has
    the value [val]. *)
Definition tuple_assigned {P} `{Core.IsParameter P}
    (x : item P) (val : pyval) (p' : P) : Prop :=
  Core.set_value_of val (Core.as_parameter x) = (Ok tt, p')
  /\ Core.value_of p' = Ok val.

End Assignment.

(** ** Instrumentation.cheap_constraint_check *)

Module Constraint.
Import Core Instrumentation.

Section Constraint.
Context {P : Type} `{IsParameter P}.

(** Modelled from the spec: [Parameter.satisfies_constraint] (core.py, not
    in src) is a method that runs on its receiver and returns a [bool]; it
    is left arbitrary. *)
Variable satisfies_constraint : M (Instrumentation.t P) bool.

(** A method called on the object [self] of the store. *)
Definition method_on {A} (self : oid) (m : M (Instrumentation.t P) A)
    : M (Instrumentation.store P) A :=
  o <- attr self ;;
  fun st => let (r, o') := m o in (r, <[self := o']> st).

(** [Instrumentation.cheap_constraint_check] *)
Definition cheap_constraint_check (self : oid) (args : list pyval)
    (kwargs : list (string * pyval)) : M (Instrumentation.store P) bool :=
  child <- spawn_child self ;;
  do as_Tuple child (Tuple.set_value (VTuple [VTuple args; VDict kwargs])) ;;
  method_on child satisfies_constraint.

End Constraint.

End Constraint.

(** ** Arithmetic that does not round *)

Module Exact.

(** Scaling the float [x] by [s] is exact: [x] is a double and the
    product [s * x] is one too, so that no rounding, overflow or underflow
    takes place (the infinities and NaN are scaled exactly by a finite [s]
    other than zero). *)
Definition exact_product (s : Qc) (x : float64) : bool :=
  match x with
  | Fin q => representableb q && representableb (s * q)%Qc
  | _ => true
  end.


(** The values of floats that are all finite. *)
Fixpoint finite_values (xs : list float64) : option (list Qc) :=
  match xs with
  | [] => Some []
  | Fin q :: rest => option_map (cons q) (finite_values rest)
  | _ => None
  end.

(** The sum of rationals, and the sums of some of them: [subsums qs] has
    the sum of every selection of elements of [qs]. *)
Definition total (qs : list Qc) : Qc := fold_right Qcplus 0%Qc qs.

Fixpoint subsums (qs : list Qc) : list Qc :=
  match qs with
  | [] => [0%Qc]
  | q :: rest => subsums rest ++ map (Qcplus q) (subsums rest)
  end.

(** Adding up the floats [xs] is exact whatever the order and the
    grouping of the additions: they are finite, and the sum of every
    selection of them is a double.  The sum that every order gives is then
    their exact sum, [exact_total xs]. *)
Definition exact_sums (xs : list float64) : bool :=
  match finite_values xs with
  | Some qs => forallb representableb (subsums qs)
  | None => false
  end.


End Exact.
Export Exact.

(** * Properties *)

(** Closed goals on concrete objects are decided by evaluation. *)
Ltac by_evaluation :=
  lazymatch goal with
  | |- ?x <> ?y => apply (bool_decide_eq_false_1 (x = y)); vm_compute; reflexivity
  | |- _ => apply (bool_decide_eq_true_1 _); vm_compute; reflexivity
  end.

(** ** The method monad *)

Lemma bind_Ok {S A B} (m : M S A) (f : A -> M S B) (s s' : S) (a : A) :
  m s = (Ok a, s') -> bind m f s = f a s'.
Proof. intros Hm. unfold bind. by rewrite Hm. Qed.

Lemma bind_Raise {S A B} (m : M S A) (f : A -> M S B) (s s' : S) (e : exn) :
  m s = (Raise e, s') -> bind m f s = (Raise e, s').
Proof. intros Hm. unfold bind. by rewrite Hm. Qed.

(** ** Floats *)

Lemma zerob_true (q : Qc) : zerob q = true <-> q = 0%Qc.
Proof.
  unfold zerob. rewrite Qceq_alt. destruct (q ?= 0)%Qc; split; congruence.
Qed.

Lemma zerob_false (q : Qc) : q <> 0%Qc -> zerob q = false.
Proof.
  intros Hq. destruct (zerob q) eqn:E; [|done]. by apply zerob_true in E.
Qed.

Lemma rounded_exact (q : Qc) : representableb q = true -> rounded q = Fin q.
Proof. intros Hq. unfold rounded. by rewrite Hq. Qed.

(** Scaling by a finite non-zero [s] and dividing by it again gives the
    float back when the scaling is exact. *)
Lemma fdiv_fmul_cancel (s : Qc) (x : float64) :
  s <> 0%Qc -> exact_product s x = true -> fdiv (fmul (Fin s) x) (Fin s) = x.
Proof.
  intros Hs Hx. destruct x as [q|neg|].
  - apply andb_true_iff in Hx as [Hq Hsq]. unfold fmul. rewrite (rounded_exact _ Hsq).
    unfold fdiv. rewrite (zerob_false s Hs).
    replace (s * q / s)%Qc with q by (field; exact Hs). by apply rounded_exact.
  - simpl. rewrite (zerob_false s Hs). simpl. by destruct (negativeb s), neg.
  - done.
Qed.



(** ** Array: what each method does on a float sigma *)

Import Array.

Ltac run_method :=
  unfold with_std_data, to_std_data, set_value, spawn_child, super_spawn_child,
    __init__, _get_parameter_value_sigma, _get_parameter_value_recombination,
    alloc, deref, set_self, call, Objects.call_on,
    bind, ret, raise, get, gets, put, lift; simpl.

Lemma size_of_flat (n : nat) : size_of [n] = n.
Proof. unfold size_of. simpl. lia. Qed.


Lemma to_std_data_scalar (a : Array.t) (h : gmap loc ndarray) (cur : ndarray) (x : float64) :
  sigma a = Scalar x ->
  h !! _value a = Some cur ->
  to_std_data (mk_state a h)
  = (Ok (mk_ndarray [size_of (np_shape cur)] (map (fun v => fdiv v x) (np_data cur))),
     mk_state a h).
Proof.
  intros Hsig Hcur. run_method. rewrite Hsig, Hcur. reflexivity.
Qed.

(** ** C1: the round trip through the standardized data *)


Import Scenario.


(** C1, the reason for the exactness: the products and quotients of two
    doubles are rounded, and they overflow.  With sigma [49.0] and the
    value [[1.0]], [to_std_data()] returns the double nearest to [1/49]
    and [with_std_data] of it sets the value to [[1 - 2^-53]], which is
    [0.9999999999999999]; with sigma [2^1023], [with_std_data([2.0])] sets
    the value to [[inf]], and [to_std_data()] then returns [[inf]]. *)
Lemma Array_std_data_round_trip_rounds :
  (exists s0 s1 x s2,
     construct 1 (fl 49) "average" = Ok s0
     /\ array_1 s0 = (Ok tt, s1)
     /\ to_std_data s1 = (Ok x, s1)
     /\ with_std_data x true s1 = (Ok tt, s2)
     /\ fst (current s2)
        = Ok (mk_ndarray [1%nat] [Fin (Q2Qc (Qmake (2 ^ 53 - 1) (Z.to_pos (2 ^ 53))))])
     /\ fst (current s1) = Ok (vector [1]%Z))
  /\ (exists s0 s1,
        construct 1 (fl (2 ^ 1023)) "average" = Ok s0
        /\ with_std_data (vector [2]%Z) true s0 = (Ok tt, s1)
        /\ fst (current s1) = Ok (mk_ndarray [1%nat] [Inf false])
        /\ fst (to_std_data s1) = Ok (mk_ndarray [1%nat] [Inf false])).
Proof.
  split.
  - eexists _, _, _, _. split; [vm_compute; reflexivity|].
    split; [vm_compute; reflexivity|].
    split; [vm_compute; reflexivity|].
    split; [vm_compute; reflexivity|].
    split; by_evaluation.
  - eexists _, _. split; [vm_compute; reflexivity|].
    split; [vm_compute; reflexivity|].
    split; by_evaluation.
Qed.


(** ** C4: the scenario of the specification *)

(** C4, the claim as stated fails: the Array of shape [(3,)] and sigma
    [2.0] set to [[2, 4, 6]] does not return [[1, 1, 3]] from
    [to_std_data()], and [with_std_data([1, 1, 3])] makes its value
    [[2, 2, 6]], not [[2, 4, 6]]. *)
Lemma Array_scenario_not_113 :
  exists s0 s1 s2,
    construct 3 (fl 2) "average" = Ok s0
    /\ array_246 s0 = (Ok tt, s1)
    /\ fst (to_std_data s1) <> Ok (vector [1; 1; 3]%Z)
    /\ with_std_data (vector [1; 1; 3]%Z) true s1 = (Ok tt, s2)
    /\ fst (current s2) = Ok (vector [2; 2; 6]%Z)
    /\ vector [2; 2; 6]%Z <> vector [2; 4; 6]%Z.
Proof.
  eexists _, _, _. split; [vm_compute; reflexivity|].
  split; [vm_compute; reflexivity|].
  split; [by_evaluation|].
  split; [vm_compute; reflexivity|].
  split; by_evaluation.
Qed.

(** C4 (as amended: the standardized data is [[1, 2, 3]]).  The Array of
    shape [(3,)] and sigma [2.0], set to [[2, 4, 6]], returns [[1, 2, 3]]
    from [to_std_data()], and [with_std_data([1, 2, 3])] makes its value
    [[2, 4, 6]], on that Array and also on the newly built one, whose value
    is [[0, 0, 0]]. *)
Theorem Array_scenario_123 :
  exists s0 s1 s2 s3,
    construct 3 (fl 2) "average" = Ok s0
    /\ array_246 s0 = (Ok tt, s1)
    /\ to_std_data s1 = (Ok (vector [1; 2; 3]%Z), s1)
    /\ with_std_data (vector [1; 2; 3]%Z) true s1 = (Ok tt, s2)
    /\ fst (current s2) = Ok (vector [2; 4; 6]%Z)
    /\ fst (current s0) = Ok (vector [0; 0; 0]%Z)
    /\ with_std_data (vector [1; 2; 3]%Z) true s0 = (Ok tt, s3)
    /\ fst (current s3) = Ok (vector [2; 4; 6]%Z).
Proof.
  eexists _, _, _, _. split; [vm_compute; reflexivity|].
  split; [vm_compute; reflexivity|].
  split; [by_evaluation|].
  split; [vm_compute; reflexivity|].
  split; [by_evaluation|].
  split; [by_evaluation|].
  split; [vm_compute; reflexivity|].
  by_evaluation.
Qed.

(** ** C10: the deterministic flag *)

(** C10.  [Array.with_std_data] does the same whatever the [deterministic]
    flag: the same outcome, the same value, the same store. *)
Theorem Array_with_std_data_ignores_deterministic (d : ndarray) (det1 det2 : bool)
    (s : state Array.t) :
  with_std_data d det1 s = with_std_data d det2 s.
Proof. reflexivity. Qed.

(** ** C8: the value property *)

(** C8.  On an Array whose value [cur] has the declared shape: assigning
    an object that is not an array raises [TypeError], assigning an array
    of another shape raises [ValueError], both leave the Array and the
    store as they were, and the getter gives the stored array itself. *)
Theorem Array_value_setter_rejects (s : state Array.t) (cur : ndarray) :
  heap s !! _value (self s) = Some cur ->
  np_shape cur = declared_shape (self s) ->
  (forall v, (forall l, v <> VArray l) ->
     set_value v s
     = (Raise (TypeError ("Received a " +:+ type_repr v +:+ " in place of a np.ndarray")), s))
  /\ (forall l new, heap s !! l = Some new ->
        np_shape new <> declared_shape (self s) ->
        set_value (VArray l) s
        = (Raise (ValueError ("Cannot set array of shape " +:+ repr_shape (np_shape cur)
                              +:+ " with value of shape " +:+ repr_shape (np_shape new))), s))
  /\ heap s !! value (self s) = Some cur.
Proof.
  intros Hcur Hshape. split; [|split].
  - intros v Hv. destruct v; try reflexivity. by destruct (Hv l).
  - intros l new Hnew Hne. run_method. rewrite Hcur, Hnew.
    rewrite bool_decide_eq_true_2; [done|]. congruence.
  - exact Hcur.
Qed.

Lemma Array_value_setter_rejects_witness :
  let a := Array.mk [3%Z] (Scalar (fl 2)) "linear" "average" 0%nat in
  let cur := vector [2; 4; 6]%Z in
  let s := mk_state a ({[ 0%nat := cur; 1%nat := vector [1; 2]%Z ]} : gmap loc ndarray) in
  set_value (VList [VInt 2; VInt 4; VInt 6]) s
  = (Raise (TypeError "Received a <class 'list'> in place of a np.ndarray"), s)
  /\ set_value (VArray 1%nat) s
     = (Raise (ValueError "Cannot set array of shape (3,) with value of shape (2,)"), s)
  /\ heap s !! value (self s) = Some cur.
Proof.
  intros a cur s.
  destruct (Array_value_setter_rejects s cur) as (Htype & Hshape & Hget).
  - by_evaluation.
  - reflexivity.
  - split; [|split].
    + apply (Htype (VList [VInt 2; VInt 4; VInt 6])). discriminate.
    + apply (Hshape 1%nat (vector [1; 2]%Z)); [by_evaluation|discriminate].
    + exact Hget.
Defined.

(** ** C6: an unknown recombination tag *)

Lemma zeros_valid (shape : list Z) :
  Forall (fun d => 0 <= d)%Z shape ->
  zeros shape = Ok (mk_ndarray (map Z.to_nat shape)
                               (replicate (size_of (map Z.to_nat shape)) (Fin 0%Qc))).
Proof.
  intros Hvalid. unfold zeros.
  replace (forallb _ shape) with true; [done|].
  symmetry. apply forallb_forall. intros d Hd.
  rewrite Forall_forall in Hvalid. apply Z.leb_le, Hvalid. by apply list_elem_of_In.
Qed.

(** C6.  The recombination tag is not validated at construction: with a
    tag other than ["average"], [__init__] does what it does with
    ["average"] for the same other arguments (it succeeds on the same
    shapes, and makes the same Array but for the tag, which it keeps);
    and on every Array so constructed [recombine], whatever the others,
    raises the [ValueError] whose message quotes the tag, leaving the
    Array and the store as they were. *)
Theorem Array_unknown_recombination {T} (s : state T) (shape : list Z) (sigma : operand)
    (distribution recomb : string) :
  recomb <> "average" ->
  __init__ shape sigma distribution recomb s
  = match __init__ shape sigma distribution "average" s with
    | (Ok a, s') =>
        (Ok (Array.mk (Array.shape a) (Array.sigma a) (Array.distribution a) recomb
                      (_value a)), s')
    | (Raise e, s') => (Raise e, s')
    end
  /\ forall a s',
       __init__ shape sigma distribution recomb s = (Ok a, s') ->
       recombination a = recomb
       /\ forall others h,
            recombine others (mk_state a h)
            = (Raise (ValueError ("Unknown recombination " +:+ dquote +:+ recomb +:+ dquote)),
               mk_state a h).
Proof.
  intros Hne. split.
  - run_method. by destruct (zeros shape).
  - intros a s'. run_method. destruct (zeros shape) as [z|e]; simpl; [|done].
    intros [= <- <-]. split; [reflexivity|].
    intros others h. unfold recombine. run_method.
    apply String.eqb_neq in Hne. by rewrite Hne.
Qed.

Lemma Array_unknown_recombination_witness :
  exists a s',
    __init__ [3%Z] (Scalar (fl 2)) "linear" "crossover" (mk_state tt ∅) = (Ok a, s')
    /\ recombination a = "crossover"
    /\ forall others h,
         recombine others (mk_state a h)
         = (Raise (ValueError ("Unknown recombination " +:+ dquote +:+ "crossover" +:+ dquote)),
            mk_state a h).
Proof.
  destruct (Array_unknown_recombination (mk_state tt ∅) [3%Z] (Scalar (fl 2))
              "linear" "crossover") as [_ Hrecombine]; [discriminate|].
  eexists _, _. split; [reflexivity|]. eapply Hrecombine. reflexivity.
Defined.

(** ** C5: recombination by average *)













(** C5, on the Arrays of the witness the arithmetic is exact: the
    standardized data [[1, 2]] and [[3, 4]] add up exactly, their mean is
    [[2, 3]], its products by the sigma [2.0] are exact, and after
    [recombine] the standardized data is [[2, 3]]. *)
Lemma Array_recombine_average_exact :
  let a := Array.mk [2%Z] (Scalar (fl 2)) "linear" "average" 0%nat in
  let b := Array.mk [2%Z] (Scalar (fl 2)) "linear" "average" 1%nat in
  let h : gmap loc ndarray := {[ 0%nat := vector [2; 4]%Z; 1%nat := vector [6; 8]%Z ]} in
  let rows := [vector [1; 2]%Z; vector [3; 4]%Z] in
  exact_sums (column 0 rows) = true
  /\ exact_sums (column 1 rows) = true
  /\ Forall (fun x => exact_product (Qc_of_Z 2) x = true) (np_data (vector [2; 3]%Z))
  /\ fst (to_std_data (snd (recombine [b] (mk_state a h)))) = Ok (vector [2; 3]%Z).
Proof.
  intros a b h rows. split; [reflexivity|]. split; [reflexivity|].
  split; [repeat constructor|]. by_evaluation.
Qed.

(** C5, the reason for the exactness: with sigma [0.1] (the double nearest
    to one tenth) and the values [[0.2]] and [[0.4]] (the doubles nearest
    to these), the standardized data are [[2.0]] and [[4.0]] and their mean
    is [[3.0]]; after [recombine] the standardized data is
    [[3.0000000000000004]], the double that follows [3.0], and not the
    mean. *)
Lemma Array_recombine_average_rounds :
  let tenth := rounded (Q2Qc (Qmake 1 10)) in
  let a := Array.mk [1%Z] (Scalar tenth) "linear" "average" 0%nat in
  let b := Array.mk [1%Z] (Scalar tenth) "linear" "average" 1%nat in
  let h : gmap loc ndarray :=
    {[ 0%nat := mk_ndarray [1%nat] [rounded (Q2Qc (Qmake 2 10))];
       1%nat := mk_ndarray [1%nat] [rounded (Q2Qc (Qmake 4 10))] ]} in
  exists s',
    fst (to_std_data (mk_state a h)) = Ok (vector [2]%Z)
    /\ fst (to_std_data (mk_state b h)) = Ok (vector [4]%Z)
    /\ mean_axis0 [vector [2]%Z; vector [4]%Z] = Ok (vector [3]%Z)
    /\ recombine [b] (mk_state a h) = (Ok tt, s')
    /\ fst (to_std_data s')
       = Ok (mk_ndarray [1%nat] [Fin (Q2Qc (Qmake (3 * 2 ^ 51 + 1) (Z.to_pos (2 ^ 51))))])
    /\ is_double tenth = true.
Proof.
  intros tenth a b h. eexists.
  split; [by_evaluation|]. split; [by_evaluation|]. split; [by_evaluation|].
  split; [vm_compute; reflexivity|]. split; by_evaluation.
Qed.


(** ** The invariant of an Array *)

Lemma init_consistent {T} (s s' : state T) (shape : list Z) (sigma : operand)
    (distribution recombination : string) (a : Array.t) :
  __init__ shape sigma distribution recombination s = (Ok a, s') ->
  consistent (mk_state a (heap s')).
Proof.
  run_method. unfold zeros. destruct (forallb _ shape); [|done].
  intros [= <- <-]. eexists. simpl. by rewrite lookup_insert_eq.
Qed.

Lemma to_std_data_state (s : state Array.t) : snd (to_std_data s) = s.
Proof.
  run_method. destruct (heap s !! _value (self s)); simpl; [|done].
  by destruct (divide _ _).
Qed.

Lemma comprehension_to_std_data_state (ps : list Array.t) (s : state Array.t) :
  snd (comprehension ps (fun p => call p to_std_data) s) = s.
Proof.
  induction ps as [|p ps IH]; simpl; [done|]. unfold bind.
  assert (Hcall : snd (call p to_std_data s) = s).
  { unfold call, Objects.call_on. pose proof (to_std_data_state (mk_state p (heap s))) as Hp.
    destruct (to_std_data _) as [r s1]. simpl in *. subst s1. by destruct s. }
  destruct (call p to_std_data s) as [[r|e] s1]; simpl in *; subst s1; [|done].
  destruct (comprehension ps _ s) as [[rs|e] s1]; simpl in *; by subst s1.
Qed.

Lemma with_std_data_consistent (d : ndarray) (det : bool) (s : state Array.t) :
  consistent s -> consistent (snd (with_std_data d det s)).
Proof.
  intros (cur & Hcur & Hshape). run_method.
  destruct (multiply _ d) as [scaled|e]; simpl; [|by exists cur].
  unfold value. rewrite Hcur.
  destruct (reshape scaled (np_shape cur)) as [new|e] eqn:Hnew; simpl; [|by exists cur].
  exists new. simpl. rewrite lookup_insert_eq. split; [done|].
  unfold reshape in Hnew. destruct (_ =? _)%nat; [|done]. by injection Hnew as <-.
Qed.

(** Whatever a mutator does, [_value] stays an array of the declared
    shape. *)
Lemma mutator_consistent (m : M (state Array.t) unit) (s : state Array.t) :
  mutator m -> consistent s -> consistent (snd (m s)).
Proof.
  intros [v|d det|others] Hs.
  - destruct Hs as (cur & Hcur & Hshape).
    destruct v; try by exists cur.
    run_method. rewrite Hcur.
    destruct (heap s !! l) as [new|] eqn:Hnew; simpl; [|by exists cur].
    case_bool_decide as Hne; simpl; [by exists cur|].
    exists new. simpl. split; [done|].
    by rewrite <- Hne.
  - by apply with_std_data_consistent.
  - unfold recombine. unfold bind at 1 2, _get_parameter_value_recombination, gets, get.
    destruct (_ =? _)%string; [|done].
    unfold bind at 1.
    pose proof (comprehension_to_std_data_state (self s :: others) s) as Hrows.
    destruct (comprehension _ _ s) as [[rows|e] s1]; simpl in Hrows; subst s1; [|done].
    unfold bind at 1, lift. destruct (mean_axis0 rows); [|done].
    by apply with_std_data_consistent.
Qed.

(** ** C3: what a spawned child shares with its parent *)

Lemma keeps_pure {T A} (m : M (state T) A) :
  (forall s, heap (snd (m s)) = heap s) -> keeps_arrays m.
Proof. intros Hm s l x Hl. by rewrite Hm. Qed.

Lemma keeps_bind {T A B} (m : M (state T) A) (f : A -> M (state T) B) :
  keeps_arrays m -> (forall a, keeps_arrays (f a)) -> keeps_arrays (bind m f).
Proof.
  intros Hm Hf s l x Hl. unfold bind. specialize (Hm s l x Hl).
  destruct (m s) as [[a|e] s1]; simpl in *; [by apply Hf|done].
Qed.

Lemma keeps_alloc {T} (a : ndarray) : keeps_arrays (@alloc T a).
Proof.
  intros s l x Hl. unfold alloc. simpl. rewrite lookup_insert_ne; [done|].
  intros <-. apply (is_fresh (dom (heap s))). apply elem_of_dom. by eexists.
Qed.

Lemma keeps_deref {T} (l : loc) : keeps_arrays (@deref T l).
Proof. apply keeps_pure. intros s. unfold deref. by destruct (heap s !! l). Qed.

Lemma keeps_call_on {T P A} (p : P) (back : P -> T -> T) (m : M (state P) A) :
  keeps_arrays m -> keeps_arrays (Objects.call_on p back m).
Proof.
  intros Hm s l x Hl. unfold Objects.call_on.
  specialize (Hm (mk_state p (heap s)) l x Hl).
  by destruct (m (mk_state p (heap s))).
Qed.

Lemma keeps_comprehension {T A B} (xs : list A) (f : A -> M (state T) B) :
  (forall a, keeps_arrays (f a)) -> keeps_arrays (comprehension xs f).
Proof.
  intros Hf. induction xs as [|a xs IH]; simpl.
  - by apply keeps_pure.
  - apply keeps_bind; [done|]. intros y. apply keeps_bind; [done|].
    intros ys. by apply keeps_pure.
Qed.

(** Every step that is no allocation leaves the store as it is. *)
Ltac keeps_step :=
  first [ apply keeps_bind; [|intros ?]
        | apply keeps_alloc | apply keeps_deref
        | apply keeps_call_on | apply keeps_comprehension; intros ?
        | by apply keeps_pure ].

Lemma keeps_set_value (v : pyval) : keeps_arrays (set_value v).
Proof.
  destruct v; try by apply keeps_pure.
  unfold set_value. repeat keeps_step. case_bool_decide; by apply keeps_pure.
Qed.

Lemma keeps_with_std_data (d : ndarray) (det : bool) : keeps_arrays (with_std_data d det).
Proof.
  unfold with_std_data. repeat keeps_step.
  all: apply keeps_pure; intros s; unfold lift; simpl; done.
Qed.

Lemma keeps_to_std_data : keeps_arrays to_std_data.
Proof.
  unfold to_std_data. repeat keeps_step.
  all: apply keeps_pure; intros s; unfold lift; simpl; done.
Qed.

Lemma keeps_recombine (others : list Array.t) : keeps_arrays (recombine others).
Proof.
  unfold recombine. repeat keeps_step.
  destruct (_ =? _)%string; [|by apply keeps_pure].
  apply keeps_bind.
  - apply keeps_comprehension. intros p. apply keeps_call_on, keeps_to_std_data.
  - intros rows. apply keeps_bind; [by apply keeps_pure|].
    intros m. apply keeps_with_std_data.
Qed.

Lemma keeps_mutator (m : M (state Array.t) unit) : mutator m -> keeps_arrays m.
Proof.
  destruct 1; [apply keeps_set_value|apply keeps_with_std_data|apply keeps_recombine].
Qed.

Lemma spawn_child_result (s : state Array.t) :
  Forall (fun d => 0 <= d)%Z (shape (self s)) ->
  exists z,
    spawn_child s
    = (Ok (with__value (value (self s))
             (Array.mk (shape (self s)) (sigma (self s)) (distribution (self s))
                       (recombination (self s)) (fresh (dom (heap s))))),
       mk_state (self s) (<[fresh (dom (heap s)) := z]> (heap s))).
Proof.
  intros Hvalid. run_method. rewrite (zeros_valid _ Hvalid). by eexists.
Qed.

(** C3 (as amended: the child shares the array of its parent, and the
    methods of the class never change an array in place).  After
    [child = parent.spawn_child()], [child.value] is the very array object
    that [parent.value] is.  Assigning the value of the child through the
    setter, [with_std_data] or [recombine] rebinds the child and leaves the
    array that is the value of the parent as it was; and the same with the
    two exchanged. *)
Theorem Array_spawn_child_shares_value (s : state Array.t) (cur : ndarray) :
  heap s !! value (self s) = Some cur ->
  Forall (fun d => 0 <= d)%Z (shape (self s)) ->
  exists child s',
    spawn_child s = (Ok child, s')
    /\ self s' = self s
    /\ value child = value (self s)
    /\ heap s' !! value (self s) = Some cur
    /\ forall m, mutator m ->
         heap (snd (m (mk_state child (heap s')))) !! value (self s) = Some cur
         /\ heap (snd (m s')) !! value child = Some cur.
Proof.
  intros Hcur Hvalid. destruct (spawn_child_result s Hvalid) as [z Hspawn].
  eexists _, _. split; [exact Hspawn|]. split; [reflexivity|]. split; [reflexivity|].
  assert (Hcur' : <[fresh (dom (heap s)) := z]> (heap s) !! value (self s) = Some cur).
  { by apply (keeps_alloc z s). }
  split; [exact Hcur'|]. intros m Hm. split.
  - by apply (keeps_mutator m Hm (mk_state _ _)).
  - by apply (keeps_mutator m Hm (mk_state _ _)).
Qed.

Lemma Array_spawn_child_shares_value_witness :
  let a := Array.mk [3%Z] (Scalar (fl 2)) "linear" "average" 0%nat in
  let cur := vector [2; 4; 6]%Z in
  let s := mk_state a ({[ 0%nat := cur ]} : gmap loc ndarray) in
  exists child s',
    spawn_child s = (Ok child, s')
    /\ self s' = self s
    /\ value child = value (self s)
    /\ heap s' !! value (self s) = Some cur
    /\ forall m, mutator m ->
         heap (snd (m (mk_state child (heap s')))) !! value (self s) = Some cur
         /\ heap (snd (m s')) !! value child = Some cur.
Proof.
  intros a cur s. apply (Array_spawn_child_shares_value s cur).
  - by_evaluation.
  - repeat constructor; lia.
Defined.

(** C3, the claim as stated fails on an in-place update: on the Array of
    shape [(3,)] set to [[2, 4, 6]], after [child = parent.spawn_child()]
    the assignment [child.value.flat[0] = 9.0] makes [parent.value]
    [[9, 4, 6]]. *)
Lemma Array_spawn_child_in_place_update :
  exists s0 s1 child s2,
    construct 3 (fl 2) "average" = Ok s0
    /\ array_246 s0 = (Ok tt, s1)
    /\ fst (current s1) = Ok (vector [2; 4; 6]%Z)
    /\ spawn_and_update_in_place s1 = (Ok child, s2)
    /\ self s2 = self s1
    /\ fst (current s2) = Ok (vector [9; 4; 6]%Z)
    /\ vector [9; 4; 6]%Z <> vector [2; 4; 6]%Z.
Proof.
  eexists _, _, _, _. split; [vm_compute; reflexivity|].
  split; [vm_compute; reflexivity|].
  split; [by_evaluation|].
  split; [vm_compute; reflexivity|].
  split; [reflexivity|].
  split; by_evaluation.
Qed.

(** ** Keys: [int(str(k)) == k] *)

Lemma int_digits_string_of_uint (u : Decimal.uint) (acc : nat) :
  int_digits (NilEmpty.string_of_uint u) acc true = Some (Nat.of_uint_acc u acc).
Proof.
  revert acc. induction u; intros acc; simpl; [done|..];
    change (digit_of_char _) with (Some 0%nat) || change (digit_of_char _) with (Some 1%nat)
    || change (digit_of_char _) with (Some 2%nat) || change (digit_of_char _) with (Some 3%nat)
    || change (digit_of_char _) with (Some 4%nat) || change (digit_of_char _) with (Some 5%nat)
    || change (digit_of_char _) with (Some 6%nat) || change (digit_of_char _) with (Some 7%nat)
    || change (digit_of_char _) with (Some 8%nat) || change (digit_of_char _) with (Some 9%nat);
    cbv iota beta; rewrite IHu, Nat.tail_mul_spec; do 2 f_equal; lia.
Qed.

Lemma to_uint_not_Nil (n : nat) : Nat.to_uint n <> Decimal.Nil.
Proof.
  intros E. pose proof (DecimalNat.Unsigned.of_to n) as Hn. rewrite E in Hn.
  simpl in Hn. subst n. discriminate E.
Qed.

Lemma int_of_str_str_of_nat (n : nat) : int_of_str (str_of_nat n) = Ok (Z.of_nat n).
Proof.
  unfold str_of_nat. pose proof (DecimalNat.Unsigned.of_to n) as Hn.
  pose proof (to_uint_not_Nil n) as Hnil.
  unfold Nat.of_uint in Hn.
  destruct (Nat.to_uint n) as [|u|u|u|u|u|u|u|u|u|u]; [done|..];
    unfold int_of_str; simpl lstrip;
    change (NilEmpty.string_of_uint ?d) with (NilEmpty.string_of_uint d);
    cbn [NilEmpty.string_of_uint lstrip is_space]; simpl;
    rewrite int_digits_string_of_uint; simpl in Hn;
    rewrite ?Nat.tail_mul_spec in Hn; simpl in Hn;
    rewrite ?Nat.add_0_r; by rewrite Hn.
Qed.

(** ** Sorting by the integer value of the key *)

Section sorting.
Context {A : Type}.

(** The order of [sorted]: by key, whatever the element. *)
Let le_key (x y : Z * A) : Prop := (fst x <= fst y)%Z.

Lemma insert_by_key_perm (x : Z * A) (l : list (Z * A)) :
  insert_by_key x l ≡ₚ x :: l.
Proof.
  induction l as [|y l IH]; simpl; [done|].
  destruct (fst x <=? fst y)%Z; [done|]. by rewrite IH, Permutation_swap.
Qed.

Lemma sort_by_key_perm (l : list (Z * A)) : sort_by_key l ≡ₚ l.
Proof.
  induction l as [|x l IH]; simpl; [done|].
  by rewrite insert_by_key_perm, IH.
Qed.

Lemma insert_by_key_sorted (x : Z * A) (l : list (Z * A)) :
  StronglySorted le_key l -> StronglySorted le_key (insert_by_key x l).
Proof.
  induction 1 as [|y l Hl IH Hy]; simpl.
  - repeat constructor.
  - destruct (fst x <=? fst y)%Z eqn:E.
    + apply Z.leb_le in E. constructor; [by constructor|].
      constructor; [done|]. eapply Forall_impl; [exact Hy|].
      unfold le_key. simpl. intros z Hz. lia.
    + apply Z.leb_gt in E. constructor; [done|].
      rewrite insert_by_key_perm. constructor; [|done]. unfold le_key. lia.
Qed.

Lemma sort_by_key_sorted (l : list (Z * A)) : StronglySorted le_key (sort_by_key l).
Proof.
  induction l as [|x l IH]; simpl; [constructor|]. by apply insert_by_key_sorted.
Qed.

(** A list in the order of its keys, all different, is what sorting any
    rearrangement of it gives. *)
Lemma sort_by_key_of_permutation (l l' : list (Z * A)) :
  StronglySorted le_key l ->
  NoDup (map fst l) ->
  l' ≡ₚ l ->
  sort_by_key l' = l.
Proof.
  intros Hsorted Hnodup Hperm.
  apply (StronglySorted_unique_strong le_key).
  - intros x1 x2 Hx1 Hx2 H12 H21. unfold le_key in *.
    rewrite sort_by_key_perm, Hperm in Hx1.
    assert (Hfst : fst x1 = fst x2) by lia.
    clear H12 H21 Hsorted Hperm.
    induction l as [|y l IH]; [by apply elem_of_nil in Hx1|].
    apply NoDup_cons in Hnodup as [Hy Hnodup].
    apply elem_of_cons in Hx1 as [->|Hx1]; apply elem_of_cons in Hx2 as [->|Hx2].
    + done.
    + destruct Hy. apply list_elem_of_fmap. by exists x2.
    + destruct Hy. apply list_elem_of_fmap. by exists x1.
    + by apply IH.
  - apply sort_by_key_sorted.
  - done.
  - by rewrite sort_by_key_perm.
Qed.

End sorting.

Lemma sequence_Ok {A} (rs : list (result A)) (xs : list A) :
  sequence rs = Ok xs <-> Forall2 (fun r x => r = Ok x) rs xs.
Proof.
  revert xs. induction rs as [|r rs IH]; intros xs; simpl.
  - split; [intros [= <-]; constructor|by inversion 1].
  - destruct r as [a|e]; simpl.
    + destruct (sequence rs) as [l|e] eqn:E; simpl.
      * split.
        -- intros [= <-]. constructor; [done|]. by apply IH.
        -- inversion 1 as [|? y ? ys Hy Hys]; subst. apply IH in Hys.
           by simplify_eq.
      * split; [done|]. inversion 1 as [|? y ? ys Hy Hys]; subst.
        apply IH in Hys. done.
    + split; [done|]. by inversion 1.
Qed.

Lemma sequence_map_Ok {A B} (f : A -> result B) (g : A -> B) (xs : list A) :
  (forall x, x ∈ xs -> f x = Ok (g x)) -> sequence (map f xs) = Ok (map g xs).
Proof.
  intros Hf. apply sequence_Ok. induction xs as [|x xs IH]; simpl; constructor.
  - apply Hf. by left.
  - apply IH. intros y Hy. apply Hf. by right.
Qed.

(** [sorted] on a rearrangement [xs'] of a list [xs] that is in the order
    of its keys, all different: the result is [xs]. *)
Lemma sorted_of_permutation {A} (keyf : A -> result Z) (k : A -> Z) (xs xs' : list A) :
  (forall x, x ∈ xs -> keyf x = Ok (k x)) ->
  StronglySorted (fun x y => (k x <= k y)%Z) xs ->
  NoDup (map k xs) ->
  xs' ≡ₚ xs ->
  sorted keyf xs' = Ok xs.
Proof.
  intros Hkey Hsorted Hnodup Hperm. unfold sorted.
  rewrite (sequence_map_Ok keyf k).
  2:{ intros x Hx. apply Hkey. by rewrite <- Hperm. }
  simpl. f_equal.
  assert (Hzip : forall l : list A, zip (map k l) l = map (fun x => (k x, x)) l).
  { induction l as [|x l IH]; simpl; [done|]. by rewrite IH. }
  rewrite Hzip.
  rewrite (sort_by_key_of_permutation (map (fun x => (k x, x)) xs)).
  - rewrite map_map. simpl. apply map_id.
  - clear Hkey Hnodup Hperm. induction Hsorted as [|x l Hl IH Hx]; simpl; constructor.
    + done.
    + rewrite Forall_fmap. eapply Forall_impl; [exact Hx|]. done.
  - by rewrite map_map.
  - by apply fmap_Permutation.
Qed.

(** ** C2: positional fidelity *)

(** The items a constructor stores, [mk_key k] being the key of position
    [k]: they are in the order of their keys, which are all different. *)
Lemma enumerate_keys_sorted {V} (mk_key : nat -> key) (ps : list V) (i : nat) :
  (forall n, int_of_key (mk_key n) = Ok (Z.of_nat n)) ->
  let items := map (fun kp => (mk_key (fst kp), snd kp)) (zip (seq i (length ps)) ps) in
  StronglySorted (fun x y => (key_index x <= key_index y)%Z) items
  /\ NoDup (map key_index items)
  /\ Forall (fun x => (Z.of_nat i <= key_index x)%Z) items
  /\ (forall x, x ∈ items -> int_of_key (fst x) = Ok (key_index x))
  /\ map snd items = ps.
Proof.
  intros Hkey. revert i. induction ps as [|p ps IH]; intros i; simpl.
  - repeat split; try constructor. intros x Hx. by apply elem_of_nil in Hx.
  - destruct (IH (S i)) as (Hsorted & Hnodup & Hge & Hok & Hsnd).
    assert (Hi : key_index (mk_key i, p) = Z.of_nat i).
    { unfold key_index. simpl. by rewrite Hkey. }
    split; [|split; [|split; [|split]]].
    + constructor; [done|]. eapply Forall_impl; [exact Hge|].
      simpl. intros x Hx. lia.
    + constructor; [|done]. rewrite Hi. intros Hin.
      apply list_elem_of_fmap in Hin as (x & Hx & Hin).
      rewrite Forall_forall in Hge. specialize (Hge x Hin). lia.
    + constructor; [lia|]. eapply Forall_impl; [exact Hge|]. simpl. intros x Hx. lia.
    + intros x [->|Hx]%elem_of_cons; [|by apply Hok].
      rewrite Hi. simpl. apply Hkey.
    + by rewrite Hsnd.
Qed.

(** The value of a container whose storage is any rearrangement of what
    the constructor stored. *)
Lemma sorted_storage {V} (mk_key : nat -> key) (ps : list V) (storage : list (key * V)) :
  (forall n, int_of_key (mk_key n) = Ok (Z.of_nat n)) ->
  storage ≡ₚ map (fun kp => (mk_key (fst kp), snd kp)) (enumerate ps) ->
  and_then (sorted (fun x => int_of_key (fst x)) storage) (fun l => Ok (map snd l)) = Ok ps.
Proof.
  intros Hkey Hperm.
  destruct (enumerate_keys_sorted mk_key ps 0 Hkey) as (Hsorted & Hnodup & _ & Hok & Hsnd).
  rewrite (sorted_of_permutation _ key_index _ storage Hok Hsorted Hnodup Hperm).
  simpl. by rewrite Hsnd.
Qed.

(** On distinct keys, [dict.update] adds the entries in their order. *)
Lemma dict_set_new {V} (d : list (key * V)) (k : key) (x : V) :
  k ∉ map fst d -> dict_set d k x = d ++ [(k, x)].
Proof.
  induction d as [|[k' y] d IH]; simpl; [done|]. intros Hk.
  apply not_elem_of_cons in Hk as [Hne Hk].
  rewrite bool_decide_eq_false_2; [|done]. by rewrite IH.
Qed.

Lemma dict_update_new {V} (d kvs : list (key * V)) :
  NoDup (map fst (d ++ kvs)) -> dict_update d kvs = d ++ kvs.
Proof.
  revert d. induction kvs as [|[k x] kvs IH]; intros d Hnodup; simpl.
  - by rewrite app_nil_r.
  - unfold dict_update in *. simpl. rewrite dict_set_new.
    + rewrite IH; rewrite <- app_assoc; done.
    + rewrite map_app in Hnodup. apply NoDup_app in Hnodup as (_ & Hd & _).
      intros Hin. apply (Hd k Hin). by left.
Qed.

Lemma int_of_key_KStr (n : nat) : int_of_key (KStr (str_of_nat n)) = Ok (Z.of_nat n).
Proof. apply int_of_str_str_of_nat. Qed.

Lemma int_of_key_KInt (n : nat) : int_of_key (KInt (Z.of_nat n)) = Ok (Z.of_nat n).
Proof. reflexivity. Qed.

Lemma Tuple_init_storage {Q} `{Core.IsParameter Q} (parameters : list (item Q))
    (t : Tuple.t Q) :
  Tuple.__init__ parameters = Ok t ->
  Tuple._parameters t
  = map (fun kp => (KInt (Z.of_nat (fst kp)), snd kp))
        (enumerate (map (fun x => Param (Core.as_parameter x)) parameters)).
Proof.
  unfold Tuple.__init__. rewrite dict_update_new.
  - simpl. destruct (Core._sanity_check _); simpl; [|done]. intros [= <-]. simpl.
    unfold enumerate, enumerate_from. rewrite length_map.
    generalize 0%nat. induction parameters as [|x ps IH]; intros i; simpl; [done|].
    by rewrite IH.
  - simpl. rewrite map_map. simpl.
    destruct (enumerate_keys_sorted (fun n => KInt (Z.of_nat n)) parameters 0 int_of_key_KInt)
      as (_ & Hnodup & _ & _ & _).
    rewrite map_map in Hnodup. simpl in Hnodup.
    apply (NoDup_fmap_1 (fun k => match k with KInt z => z | KStr _ => 0%Z end)).
    rewrite <- list_fmap_compose. exact Hnodup.
Qed.

(** The value of a [Tuple] built from [parameters], whatever the order in
    which its entries are held. *)
Lemma Tuple_value_of_init {Q} `{Core.IsParameter Q} (parameters : list (item Q))
    (t : Tuple.t Q) (storage : list (key * item Q)) :
  Tuple.__init__ parameters = Ok t ->
  storage ≡ₚ Tuple._parameters t ->
  (forall v, Core.value_of (Core.constant v) = Ok v) ->
  Tuple.value (Tuple.mk storage)
  = (vs <~ sequence (map Core.item_value parameters) ;; Ok (VTuple vs)).
Proof.
  intros Hinit Hperm Hconst. unfold Tuple.value. simpl.
  rewrite (Tuple_init_storage _ _ Hinit) in Hperm.
  pose proof (sorted_storage (fun n => KInt (Z.of_nat n)) _ storage
                int_of_key_KInt Hperm) as Hsorted.
  destruct (sorted _ storage) as [l|e]; simpl in *; [|done].
  injection Hsorted as ->. rewrite map_map.
  replace (map (fun x => Core.item_value (Param (Core.as_parameter x))) parameters)
    with (map Core.item_value parameters); [done|].
  apply map_ext. intros [v|q]; simpl; [|done]. by rewrite Hconst.
Qed.

(** C2 (as amended: the [value] of an [Instrumentation] is not the
    sequence of its constructor arguments, it is the pair of the values of
    its two children).  For a [ParametersList] built from [parameters],
    and for a [Tuple] built from [parameters'], whatever the order
    ([storage], [storage']) in which the entries of [_parameters] are
    held: [value] is the sequence of the current values of the constructor
    arguments, in their order (the [value] of an argument that is a
    Parameter, the object itself otherwise), so its [n]-th element is that
    of the [n]-th argument.  For an [Instrumentation] built from the
    positional arguments [args] and the keyword arguments [kwargs],
    [value] is the tuple of two elements whose first is the tuple of the
    current values of [args], in their order, and whose second is the
    value of the [Dict] made of [kwargs].  [constant v] is the Parameter
    [as_parameter] makes of an object [v] that is not one, and its value is
    [v]; the value of the [Tuple] of [args], held as a child, is the one
    its getter gives. *)
Theorem value_positional_fidelity {P} `{Core3.IsParameter P} {Q} `{Core.IsParameter Q}
    (parameters : list (item P)) (storage : list (key * item P))
    (parameters' : list (item Q)) (t : Tuple.t Q) (storage' : list (key * item Q))
    (Tuple_as_parameter : Tuple.t Q -> Q)
    (Dict__init__ : list (string * item Q) -> result Q)
    (_parameters_values : Q -> list (item Q))
    (args : list (item Q)) (kwargs : list (string * item Q))
    (st st' : Instrumentation.store Q) (self : Instrumentation.oid) :
  storage ≡ₚ ParametersList._parameters (ParametersList.__init__ parameters) ->
  Tuple.__init__ parameters' = Ok t ->
  storage' ≡ₚ Tuple._parameters t ->
  (forall v, Core.value_of (Core.constant v) = Ok v) ->
  (forall a, Tuple.__init__ args = Ok a ->
             Core.value_of (Tuple_as_parameter a) = Tuple.value a) ->
  Instrumentation.__init__ Tuple_as_parameter Dict__init__ _parameters_values args kwargs st
  = (Ok self, st') ->
  (ParametersList.value (ParametersList.mk storage)
   = (vs <~ sequence (map Core3.item_value parameters) ;; Ok (VList vs))
   /\ forall vs, ParametersList.value (ParametersList.mk storage) = Ok (VList vs) ->
        length vs = length parameters
        /\ forall n x, parameters !! n = Some x ->
             exists v, vs !! n = Some v /\ Core3.item_value x = Ok v)
  /\ (Tuple.value (Tuple.mk storage')
      = (vs <~ sequence (map Core.item_value parameters') ;; Ok (VTuple vs))
      /\ forall vs, Tuple.value (Tuple.mk storage') = Ok (VTuple vs) ->
           length vs = length parameters'
           /\ forall n x, parameters' !! n = Some x ->
                exists v, vs !! n = Some v /\ Core.item_value x = Ok v)
  /\ (exists d,
        Dict__init__ kwargs = Ok d
        /\ fst (Instrumentation.value self st')
           = (vs <~ sequence (map Core.item_value args) ;;
              vd <~ Core.value_of d ;;
              Ok (VTuple [VTuple vs; vd]))).
Proof.
  intros Hperm Hinit Hperm' Hconst Htuple Hins.
  assert (Hnth : forall {R} (f : R -> result pyval) (ps : list R) (vs : list pyval),
             sequence (map f ps) = Ok vs ->
             length vs = length ps
             /\ forall n x, ps !! n = Some x -> exists v, vs !! n = Some v /\ f x = Ok v).
  { intros R f ps vs Hseq. apply sequence_Ok in Hseq. split.
    - apply Forall2_length in Hseq. by rewrite length_map in Hseq.
    - intros n x Hx.
      destruct (Forall2_lookup_l _ _ _ n (f x) Hseq) as (v & Hv & Hfx).
      { by rewrite list_lookup_fmap, Hx. }
      by exists v. }
  assert (Hvalue : ParametersList.value (ParametersList.mk storage)
                   = (vs <~ sequence (map Core3.item_value parameters) ;; Ok (VList vs))).
  { unfold ParametersList.value. simpl.
    pose proof (sorted_storage (fun n => KStr (str_of_nat n)) parameters storage
                  int_of_key_KStr Hperm) as Hsorted.
    destruct (sorted _ storage) as [l|e]; simpl in *; [|done].
    by injection Hsorted as ->. }
  pose proof (Tuple_value_of_init parameters' t storage' Hinit Hperm' Hconst) as Hvalue'.
  split; [|split]; [split; [done|]|split; [done|]|].
  - intros vs Hvs. rewrite Hvalue in Hvs.
    destruct (sequence (map Core3.item_value parameters)) as [l|e] eqn:Hseq; [|done].
    simpl in Hvs. injection Hvs as ->. by apply Hnth.
  - intros vs Hvs. rewrite Hvalue' in Hvs.
    destruct (sequence (map Core.item_value parameters')) as [l|e] eqn:Hseq; [|done].
    simpl in Hvs. injection Hvs as ->. by apply Hnth.
  - revert Hins. unfold Instrumentation.__init__, bind, lift, Instrumentation.new.
    destruct (Tuple.__init__ args) as [a|e] eqn:Ha; [|done].
    destruct (Dict__init__ kwargs) as [d|e] eqn:Hd; [|done].
    destruct (Tuple.__init__ [Param (Tuple_as_parameter a); Param d]) as [super|e] eqn:Hsuper;
      [|done].
    destruct (Core._sanity_check _) as [[]|e]; [|done].
    intros [= <- <-]. exists d. split; [done|].
    unfold Instrumentation.value, bind, Instrumentation.attr, lift.
    rewrite lookup_insert_eq. simpl.
    rewrite (Tuple_value_of_init _ super _ Hsuper (reflexivity _) Hconst). simpl.
    rewrite (Htuple a (reflexivity _)). destruct a as [entries].
    rewrite (Tuple_value_of_init args _ entries Ha (reflexivity _) Hconst).
    destruct (sequence (map Core.item_value args)) as [vs|e]; simpl; [|done].
    by destruct (Core.value_of d).
Qed.

(** C2, the claim as stated fails for an [Instrumentation]: the value of
    [Instrumentation(5)] is [((5,), {})], whose first element is the tuple
    [(5,)] and not [5], the value of the first constructor argument.  The
    children are taken by their values: the [Tuple] of the positional
    arguments as the constant that holds its value, the [Dict] of no
    keyword argument as the constant [{}]. *)
Lemma Instrumentation_value_is_a_pair :
  let Tuple_as_parameter : Tuple.t Constant.t -> Constant.t :=
    fun t => match Tuple.value t with Ok v => v | Raise _ => VNone end in
  let Dict__init__ : list (string * item Constant.t) -> result Constant.t :=
    fun _ => Ok (VDict []) in
  let _parameters_values : Constant.t -> list (item Constant.t) := fun _ => [] in
  exists self st',
    Instrumentation.__init__ Tuple_as_parameter Dict__init__ _parameters_values
      [Raw (VInt 5)] [] ∅ = (Ok self, st')
    /\ fst (Instrumentation.value self st') = Ok (VTuple [VTuple [VInt 5]; VDict []])
    /\ VTuple [VTuple [VInt 5]; VDict []] <> VTuple [VInt 5].
Proof.
  intros Tuple_as_parameter Dict__init__ _parameters_values.
  eexists _, _. split; [reflexivity|]. split; [reflexivity|]. discriminate.
Qed.

(** ** C7: assigning a sequence of another length *)



(** The loop of the two setters, [for k, val in enumerate(value)], seen
    through the keys of the receiver: the body of position [k] raises
    [KeyError] when the key of [k] is missing, and it changes no key. *)
Section keyed_loop.
Context {St E : Type}.
Variable keys : St -> list key.
Variable mk_key : nat -> key.
Variable body : nat * pyval -> M St unit.
Variable extend : St -> E -> St.

Hypothesis body_missing : forall k v s,
  mk_key k ∉ keys s -> body (k, v) s = (Raise (KeyError (mk_key k)), s).
Hypothesis body_keys : forall kv s, keys (snd (body kv s)) = keys s.
Hypothesis body_extend : forall k v s rest,
  mk_key k ∈ keys s ->
  body (k, v) (extend s rest) = (fst (body (k, v) s), extend (snd (body (k, v) s)) rest).




End keyed_loop.








Section ParametersList_setter.
Import Core3 ParametersList.
Context {P : Type} `{IsParameter P}.








End ParametersList_setter.

Section Tuple_setter.
Import Core Tuple.
Context {Q : Type} `{IsParameter Q}.





Lemma Tuple_init_entries (ps : list (item Q)) (t : Tuple.t Q) :
  Tuple.__init__ ps = Ok t -> _parameters t = entries_from 0 ps.
Proof.
  intros Hinit. rewrite (Tuple_init_storage _ _ Hinit). clear Hinit.
  unfold entries_from, enumerate, enumerate_from. rewrite length_map.
  generalize 0%nat. induction ps as [|x ps IH]; intros i; simpl; [done|].
  by rewrite IH.
Qed.



End Tuple_setter.




Lemma value_positional_fidelity_witness :
  let a := Array.mk [3%Z] (Scalar (fl 2)) "linear" "average" 0%nat in
  let Tuple_as_parameter : Tuple.t Constant.t -> Constant.t :=
    fun t => match Tuple.value t with Ok v => v | Raise _ => VNone end in
  let Dict__init__ : list (string * item Constant.t) -> result Constant.t :=
    fun _ => Ok (VDict []) in
  let _parameters_values : Constant.t -> list (item Constant.t) := fun _ => [] in
  let st' := snd (Instrumentation.__init__ Tuple_as_parameter Dict__init__ _parameters_values
                    [Raw (VInt 5); Param (VStr "c")] [] ∅) in
  ParametersList.value
    (ParametersList.mk [(KStr "1", Param a); (KStr "2", Raw (VStr "c")); (KStr "0", Raw (VInt 7))])
  = Ok (VList [VInt 7; VArray 0%nat; VStr "c"])
  /\ Tuple.value
       (Tuple.mk [(KInt 2, Param (VStr "c")); (KInt 0, Param (VInt 7));
                  (KInt 1, Param (VInt 8) : item Constant.t)])
     = Ok (VTuple [VInt 7; VInt 8; VStr "c"])
  /\ fst (Instrumentation.value 0%nat st')
     = Ok (VTuple [VTuple [VInt 5; VStr "c"]; VDict []]).
Proof.
  intros a Tuple_as_parameter Dict__init__ _parameters_values st'.
  destruct (value_positional_fidelity
              [Raw (VInt 7); Param a; Raw (VStr "c")]
              [(KStr "1", Param a); (KStr "2", Raw (VStr "c")); (KStr "0", Raw (VInt 7))]
              [Raw (VInt 7); Raw (VInt 8); Param (VStr "c" : Constant.t)]
              (Tuple.mk (Tuple.entries_from 0 [Raw (VInt 7); Raw (VInt 8); Param (VStr "c")]))
              [(KInt 2, Param (VStr "c")); (KInt 0, Param (VInt 7)); (KInt 1, Param (VInt 8))]
              Tuple_as_parameter Dict__init__ _parameters_values
              [Raw (VInt 5); Param (VStr "c" : Constant.t)] [] ∅ st' 0%nat)
    as ([Hlist _] & [Htuple _] & (d & Hd & Hins)).
  - simpl. etransitivity; [apply Permutation_skip, Permutation_swap|].
    apply Permutation_swap.
  - reflexivity.
  - simpl. etransitivity; [apply Permutation_swap|].
    apply Permutation_skip, Permutation_swap.
  - reflexivity.
  - by intros t0 [= <-].
  - reflexivity.
  - split; [exact Hlist|]. split; [exact Htuple|].
    injection Hd as <-. exact Hins.
Defined.

(** ** C9: the conversions of an Instrumentation *)

Section Instrumentation_conversions.
Import Core Instrumentation.
Context {P : Type} `{IsParameter P}.
Variable get_standardized_data : M (Tuple.t P) ndarray.
Variable set_standardized_data : ndarray -> bool -> M (Tuple.t P) unit.

Implicit Types (st : store P) (self c : oid).

Lemma attr_Some st self o : st !! self = Some o -> attr self st = (Ok o, st).
Proof. intros Ho. unfold attr. by rewrite Ho. Qed.

Lemma memo_unique st self ps c c' :
  st !! self = Some (mk ps (Some c)) ->
  (exists o', st !! self = Some o' /\ _compatibility_ o' = Some c') ->
  c = c'.
Proof.
  intros Hself (o' & Ho' & Hc'). rewrite Hself in Ho'.
  injection Ho' as <-. simpl in Hc'. by injection Hc'.
Qed.

Lemma _compatibility_set st self o c :
  st !! self = Some o -> _compatibility_ o = Some c ->
  _compatibility self st = (Ok c, st).
Proof.
  intros Ho Hc. unfold _compatibility.
  rewrite (bind_Ok _ _ _ _ _ (attr_Some _ _ _ Ho)). by rewrite Hc.
Qed.

Lemma _compatibility_unset st self o :
  st !! self = Some o -> _compatibility_ o = None ->
  exists child,
    _compatibility self st
    = (Ok (fresh (dom st)),
       <[self := mk (_parameters o) (Some (fresh (dom st)))]> (<[fresh (dom st) := child]> st)).
Proof.
  intros Ho Hc. unfold _compatibility.
  rewrite (bind_Ok _ _ _ _ _ (attr_Some _ _ _ Ho)). rewrite Hc.
  unfold spawn_child. unfold bind at 1 2. rewrite (attr_Some _ _ _ Ho).
  by eexists.
Qed.

(** The first access makes the copy, a new object, and sets the memo; a
    later access changes nothing. *)
Lemma _compatibility_frame st self :
  memo_ok st self ->
  exists c st',
    _compatibility self st = (Ok c, st')
    /\ conversion_frame self st st'
    /\ (exists o', st' !! self = Some o' /\ _compatibility_ o' = Some c).
Proof.
  unfold memo_ok. destruct (st !! self) as [o|] eqn:Ho; [|done]. intros Hmemo.
  destruct (_compatibility_ o) as [c|] eqn:Hc.
  - destruct Hmemo as [Hne Hin]. exists c, st.
    split; [by apply (_compatibility_set st self o c)|].
    assert (Hself : st !! self = Some (mk (_parameters o) (Some c))).
    { rewrite Ho. f_equal. destruct o. simpl in *. by subst. }
    split; [|by eauto].
    exists o, c. rewrite Hc. by repeat split.
  - destruct (_compatibility_unset st self o Ho Hc) as [child Hrun].
    set (c := fresh (dom st)) in *.
    assert (Hfresh : c ∉ dom st) by apply is_fresh.
    assert (Hne : c <> self).
    { intros Heq. apply Hfresh. rewrite Heq. apply elem_of_dom. by eexists. }
    eexists c, _. split; [exact Hrun|]. split.
    + exists o, c. rewrite Hc. split; [done|]. split; [by rewrite lookup_insert_eq|].
      split; [done|]. split.
      { rewrite lookup_insert_ne, lookup_insert_eq; [by eexists|done]. }
      split.
      { intros j Hj Hjc. by rewrite !lookup_insert_ne. }
      split; [done|]. rewrite !dom_insert_L.
      assert (Hin : self ∈ dom st) by (apply elem_of_dom; by eexists).
      apply set_eq. intros j. rewrite !elem_of_union, !elem_of_singleton.
      split; [intros [->|?]; auto|auto].
    + eexists. by rewrite lookup_insert_eq.
Qed.

(** A method of [Tuple] run on the copy touches the copy alone. *)
Lemma as_Tuple_frame {A} st self c (m : M (Tuple.t P) A) :
  c <> self -> is_Some (st !! c) ->
  exists r st',
    as_Tuple c m st = (r, st')
    /\ st' !! self = st !! self
    /\ is_Some (st' !! c)
    /\ (forall j, j <> c -> st' !! j = st !! j)
    /\ dom st' = dom st.
Proof.
  intros Hne [oc Hoc]. unfold as_Tuple.
  rewrite (bind_Ok _ _ _ _ _ (attr_Some _ _ _ Hoc)).
  destruct (m _) as [r t']. eexists _, _. split; [reflexivity|].
  split; [by rewrite lookup_insert_ne|]. split; [by rewrite lookup_insert_eq|].
  split; [intros j Hj; by rewrite lookup_insert_ne|].
  rewrite dom_insert_L. assert (Hin : c ∈ dom st) by (apply elem_of_dom; by eexists).
  apply set_eq. intros j. rewrite elem_of_union, elem_of_singleton.
  split; [intros [->|?]; auto|auto].
Qed.

(** Reading the value of an object changes nothing. *)
Lemma value_frame st c : snd (Instrumentation.value c st) = st.
Proof.
  unfold Instrumentation.value, bind, attr, lift.
  by destruct (st !! c).
Qed.

Lemma conversion_frame_memo_ok st st' self :
  conversion_frame self st st' -> memo_ok st' self.
Proof.
  intros (o & c & _ & Hself & Hne & Hc & _). unfold memo_ok. by rewrite Hself.
Qed.

(** A step on the copy after the memo is set keeps the frame. *)
Lemma conversion_frame_step st st1 st2 self c :
  conversion_frame self st st1 ->
  (exists o', st1 !! self = Some o' /\ _compatibility_ o' = Some c) ->
  st2 !! self = st1 !! self ->
  is_Some (st2 !! c) ->
  (forall j, j <> c -> st2 !! j = st1 !! j) ->
  dom st2 = dom st1 ->
  conversion_frame self st st2.
Proof.
  intros (o & c' & Ho & Hself & Hne & Hc & Hother & Hmemo) (o' & Ho' & Hc').
  intros Hself2 Hc2 Hother2 Hdom.
  assert (c' = c) as -> by (eapply memo_unique; [exact Hself|by eauto]).
  exists o, c. split; [done|]. split; [by rewrite Hself2|]. split; [done|].
  split; [done|]. split.
  - intros j Hj Hjc. rewrite Hother2; [by apply Hother|done].
  - destruct (_compatibility_ o); rewrite Hdom; exact Hmemo.
Qed.

Lemma conversion_frame_value st st' self :
  conversion_frame self st st' ->
  fst (Instrumentation.value self st') = fst (Instrumentation.value self st).
Proof.
  intros (o & c & Ho & Hself & _). unfold Instrumentation.value.
  rewrite (bind_Ok _ _ _ _ _ (attr_Some _ _ _ Ho)).
  by rewrite (bind_Ok _ _ _ _ _ (attr_Some _ _ _ Hself)).
Qed.

Lemma arguments_to_data_frame st self args kwargs :
  memo_ok st self ->
  conversion_frame self st
    (snd (arguments_to_data get_standardized_data self args kwargs st)).
Proof.
  intros Hmemo. unfold arguments_to_data.
  destruct (_compatibility_frame st self Hmemo) as (c & st1 & Hc & Hframe & Hset).
  rewrite (bind_Ok _ _ _ _ _ Hc).
  pose proof Hframe as (o & c0 & _ & Hself1 & Hne & Hin & _).
  assert (c0 = c) as -> by (eapply memo_unique; [exact Hself1|exact Hset]).
  destruct (as_Tuple_frame st1 self c
              (Tuple.set_value (VTuple [VTuple args; VDict kwargs])) Hne Hin)
    as (r & st2 & Hrun & Hself2 & Hin2 & Hother2 & Hdom2).
  assert (Hframe2 : conversion_frame self st st2).
  { by apply (conversion_frame_step st st1 st2 self c). }
  destruct r as [[]|e]; [|by rewrite (bind_Raise _ _ _ _ _ Hrun)].
  rewrite (bind_Ok _ _ _ _ _ Hrun).
  destruct (_compatibility_frame st2 self (conversion_frame_memo_ok _ _ _ Hframe2))
    as (c' & st3 & Hc3 & Hframe3 & Hset3).
  rewrite (bind_Ok _ _ _ _ _ Hc3).
  pose proof Hframe3 as (o2 & c2 & Ho2 & Hself3 & Hne3 & Hin3 & Hother3 & Hmemo3).
  assert (c2 = c') as -> by (eapply memo_unique; [exact Hself3|exact Hset3]).
  assert (Ho2c : _compatibility_ o2 = Some c).
  { rewrite Hself2, Hself1 in Ho2. by simplify_eq. }
  rewrite Ho2c in Hmemo3. destruct Hmemo3 as [-> Hdom3].
  destruct (as_Tuple_frame st3 self c get_standardized_data Hne Hin3)
    as (r4 & st4 & Hrun4 & Hself4 & Hin4 & Hother4 & Hdom4).
  rewrite Hrun4. simpl.
  apply (conversion_frame_step st st3 st4 self c); try done.
  apply (conversion_frame_step st st2 st3 self c); try done.
  - exists (mk (_parameters o) (Some c)). split; [by rewrite Hself2|done].
  - rewrite Hself3. rewrite Ho2. f_equal. destruct o2. simpl in *. by subst.
  - intros j Hj. destruct (decide (j = self)) as [->|Hjs].
    + rewrite Hself3, Ho2. f_equal. destruct o2. simpl in *. by subst.
    + by apply Hother3.
Qed.

Lemma data_to_arguments_frame st self data deterministic :
  memo_ok st self ->
  conversion_frame self st
    (snd (data_to_arguments set_standardized_data self data deterministic st)).
Proof.
  intros Hmemo. unfold data_to_arguments.
  destruct (_compatibility_frame st self Hmemo) as (c & st1 & Hc & Hframe & Hset).
  rewrite (bind_Ok _ _ _ _ _ Hc).
  pose proof Hframe as (o & c0 & _ & Hself1 & Hne & Hin & _).
  assert (c0 = c) as -> by (eapply memo_unique; [exact Hself1|exact Hset]).
  destruct (as_Tuple_frame st1 self c
              (set_standardized_data data deterministic) Hne Hin)
    as (r & st2 & Hrun & Hself2 & Hin2 & Hother2 & Hdom2).
  assert (Hframe2 : conversion_frame self st st2).
  { by apply (conversion_frame_step st st1 st2 self c). }
  destruct r as [[]|e]; [|by rewrite (bind_Raise _ _ _ _ _ Hrun)].
  rewrite (bind_Ok _ _ _ _ _ Hrun).
  destruct (_compatibility_frame st2 self (conversion_frame_memo_ok _ _ _ Hframe2))
    as (c' & st3 & Hc3 & Hframe3 & Hset3).
  rewrite (bind_Ok _ _ _ _ _ Hc3).
  pose proof Hframe3 as (o2 & c2 & Ho2 & Hself3 & Hne3 & Hin3 & Hother3 & Hmemo3).
  assert (c2 = c') as -> by (eapply memo_unique; [exact Hself3|exact Hset3]).
  assert (Ho2c : _compatibility_ o2 = Some c).
  { rewrite Hself2, Hself1 in Ho2. by simplify_eq. }
  rewrite Ho2c in Hmemo3. destruct Hmemo3 as [-> Hdom3].
  rewrite value_frame.
  apply (conversion_frame_step st st2 st3 self c); try done.
  - exists (mk (_parameters o) (Some c)). split; [by rewrite Hself2|done].
  - rewrite Hself3. rewrite Ho2. f_equal. destruct o2. simpl in *. by subst.
  - intros j Hj. destruct (decide (j = self)) as [->|Hjs].
    + rewrite Hself3, Ho2. f_equal. destruct o2. simpl in *. by subst.
    + by apply Hother3.
Qed.

End Instrumentation_conversions.

(** A new [Instrumentation] has no memo. *)
Lemma Instrumentation_init_memo_ok {P} `{Core.IsParameter P}
    (Tuple_as_parameter : Tuple.t P -> P)
    (Dict__init__ : list (string * item P) -> result P)
    (_parameters_values : P -> list (item P))
    (args : list (item P)) (kwargs : list (string * item P))
    (st st' : Instrumentation.store P) (self : Instrumentation.oid) :
  Instrumentation.__init__ Tuple_as_parameter Dict__init__ _parameters_values args kwargs st
  = (Ok self, st') ->
  Instrumentation.memo_ok st' self.
Proof.
  unfold Instrumentation.__init__, bind, lift, Instrumentation.new.
  destruct (Tuple.__init__ args); [|done].
  destruct (Dict__init__ kwargs); [|done].
  destruct (Tuple.__init__ _); [|done].
  destruct (Core._sanity_check _); [|done].
  intros [= <- <-]. unfold Instrumentation.memo_ok. by rewrite lookup_insert_eq.
Qed.

(** C9.  On an [Instrumentation] [self] whose memo is as the class keeps
    it (unset, as [__init__] leaves it, or naming another object):
    [arguments_to_data] and [data_to_arguments], whatever they return or
    raise, change only the memo of [self] and the copy it names.  The
    children of [self], hence its value, are what they were; the copy is
    made by [spawn_child] when the memo is unset, it is then a new object
    and the only one made; when the memo is set, the copy is the one it
    names and no object is made; and the memo is again as the class keeps
    it, so that a conversion that follows uses the same copy and makes no
    object. *)
Theorem Instrumentation_conversions_on_copy {P} `{Core.IsParameter P}
    (get_standardized_data : M (Tuple.t P) ndarray)
    (set_standardized_data : ndarray -> bool -> M (Tuple.t P) unit)
    (st : Instrumentation.store P) (self : Instrumentation.oid)
    (args : list pyval) (kwargs : list (string * pyval))
    (data : ndarray) (deterministic : bool) :
  Instrumentation.memo_ok st self ->
  let st1 := snd (Instrumentation.arguments_to_data get_standardized_data self args kwargs st) in
  let st2 := snd (Instrumentation.data_to_arguments set_standardized_data self data
                    deterministic st) in
  let st3 := snd (Instrumentation.data_to_arguments set_standardized_data self data
                    deterministic st1) in
  (Instrumentation.conversion_frame self st st1
   /\ fst (Instrumentation.value self st1) = fst (Instrumentation.value self st)
   /\ Instrumentation.memo_ok st1 self)
  /\ (Instrumentation.conversion_frame self st st2
      /\ fst (Instrumentation.value self st2) = fst (Instrumentation.value self st)
      /\ Instrumentation.memo_ok st2 self)
  /\ (exists o1 o3 c,
        st1 !! self = Some o1 /\ Instrumentation._compatibility_ o1 = Some c
        /\ st3 !! self = Some o3 /\ Instrumentation._compatibility_ o3 = Some c
        /\ dom st3 = dom st1
        /\ fst (Instrumentation.value self st3) = fst (Instrumentation.value self st)).
Proof.
  intros Hmemo st1 st2 st3.
  pose proof (arguments_to_data_frame get_standardized_data st self args kwargs Hmemo) as H1.
  pose proof (data_to_arguments_frame set_standardized_data st self data deterministic Hmemo)
    as H2.
  pose proof (conversion_frame_memo_ok _ _ _ H1) as Hmemo1.
  pose proof (data_to_arguments_frame set_standardized_data st1 self data deterministic Hmemo1)
    as H3.
  fold st1 in H1, H3. fold st2 in H2. fold st3 in H3.
  split; [|split].
  - split; [done|]. split; [by apply conversion_frame_value|done].
  - split; [done|]. split; [by apply conversion_frame_value|].
    by eapply conversion_frame_memo_ok.
  - destruct H1 as (o & c & Ho & Hself1 & _).
    destruct H3 as (o1 & c3 & Ho1 & Hself3 & Hne3 & Hin3 & Hother3 & Hmemo3).
    rewrite Hself1 in Ho1. injection Ho1 as <-. simpl in Hmemo3.
    destruct Hmemo3 as [-> Hdom3].
    eexists _, _, c. split; [exact Hself1|]. split; [done|].
    split; [exact Hself3|]. split; [done|]. split; [done|].
    unfold Instrumentation.value.
    rewrite (bind_Ok _ _ _ _ _ (attr_Some _ _ _ Hself3)).
    by rewrite (bind_Ok _ _ _ _ _ (attr_Some _ _ _ Ho)).
Qed.

Lemma Instrumentation_conversions_on_copy_witness :
  let get_standardized_data : M (Tuple.t Constant.t) ndarray :=
    fun t => (Ok (vector []), t) in
  let set_standardized_data : ndarray -> bool -> M (Tuple.t Constant.t) unit :=
    fun _ _ t => (Ok tt, t) in
  let st : Instrumentation.store Constant.t :=
    {[ 0%nat := Instrumentation.mk [(KInt 0, Param (VTuple [VInt 1])); (KInt 1, Param (VDict []))]
                                   None ]} in
  let st1 := snd (Instrumentation.arguments_to_data get_standardized_data 0%nat
                    [VInt 5] [] st) in
  let st2 := snd (Instrumentation.data_to_arguments set_standardized_data 0%nat
                    (vector []) false st) in
  let st3 := snd (Instrumentation.data_to_arguments set_standardized_data 0%nat
                    (vector []) false st1) in
  (Instrumentation.conversion_frame 0%nat st st1
   /\ fst (Instrumentation.value 0%nat st1) = fst (Instrumentation.value 0%nat st)
   /\ Instrumentation.memo_ok st1 0%nat)
  /\ (Instrumentation.conversion_frame 0%nat st st2
      /\ fst (Instrumentation.value 0%nat st2) = fst (Instrumentation.value 0%nat st)
      /\ Instrumentation.memo_ok st2 0%nat)
  /\ (exists o1 o3 c,
        st1 !! 0%nat = Some o1 /\ Instrumentation._compatibility_ o1 = Some c
        /\ st3 !! 0%nat = Some o3 /\ Instrumentation._compatibility_ o3 = Some c
        /\ dom st3 = dom st1
        /\ fst (Instrumentation.value 0%nat st3) = fst (Instrumentation.value 0%nat st)).
Proof.
  intros get_standardized_data set_standardized_data st.
  apply (Instrumentation_conversions_on_copy get_standardized_data set_standardized_data
           st 0%nat [VInt 5] [] (vector []) false).
  exact I.
Defined.

(** * More properties of the two files *)

(** ** Array *)

(** X1.  Assigning to [value] an array of the shape of the current one
    succeeds, changes nothing but [_value], and [value] is then the very
    array object that was assigned, not a copy: an element written into
    that array afterwards is read through [value]. *)
Theorem Array_value_set_get (s : state Array.t) (cur new : ndarray) (l : loc) :
  heap s !! _value (self s) = Some cur ->
  heap s !! l = Some new ->
  np_shape new = np_shape cur ->
  exists s',
    set_value (VArray l) s = (Ok tt, s')
    /\ self s' = with__value l (self s)
    /\ heap s' = heap s
    /\ value (self s') = l
    /\ forall i x new', setitem new i x = Ok new' ->
         exists s'', setitem_at l i x s' = (Ok tt, s'')
                     /\ current s'' = (Ok new', s'').
Proof.
  intros Hcur Hnew Hshape. eexists. split.
  - run_method. rewrite Hcur, Hnew.
    rewrite bool_decide_eq_false_2; [reflexivity|]. intros Hne. by rewrite Hshape in Hne.
  - simpl. split; [done|]. split; [done|]. split; [done|].
    intros i x new' Hset. eexists. split.
    + unfold setitem_at. run_method. rewrite Hnew. simpl. rewrite Hset. reflexivity.
    + unfold current. run_method. unfold value. simpl. by rewrite lookup_insert_eq.
Qed.

Lemma Array_value_set_get_witness :
  let a := Array.mk [3%Z] (Scalar (fl 2)) "linear" "average" 0%nat in
  let s := mk_state a ({[ 0%nat := vector [0; 0; 0]%Z; 1%nat := vector [2; 4; 6]%Z ]}
                         : gmap loc ndarray) in
  exists s',
    set_value (VArray 1%nat) s = (Ok tt, s')
    /\ self s' = with__value 1%nat (self s)
    /\ heap s' = heap s
    /\ value (self s') = 1%nat
    /\ forall i x new', setitem (vector [2; 4; 6]%Z) i x = Ok new' ->
         exists s'', setitem_at 1%nat i x s' = (Ok tt, s'')
                     /\ current s'' = (Ok new', s'').
Proof.
  intros a s.
  apply (Array_value_set_get s (vector [0; 0; 0]%Z) (vector [2; 4; 6]%Z) 1%nat).
  - by_evaluation.
  - by_evaluation.
  - reflexivity.
Defined.

(** X2.  [with_std_data] on data whose number of elements is not the one
    of the value raises the [ValueError] of [reshape], whose message gives
    the size of the data and the shape of the value as NumPy prints it,
    and leaves the Array and the store as they were. *)
Theorem Array_with_std_data_wrong_size (s : state Array.t) (cur d : ndarray)
    (x : float64) (det : bool) :
  sigma (self s) = Scalar x ->
  heap s !! _value (self s) = Some cur ->
  size_of (np_shape d) <> size_of (np_shape cur) ->
  with_std_data d det s
  = (Raise (ValueError ("cannot reshape array of size " +:+ str_of_nat (size_of (np_shape d))
                        +:+ " into shape " +:+ shape_string (np_shape cur))), s).
Proof.
  intros Hsig Hcur Hsize. run_method. rewrite Hsig. simpl.
  unfold value. rewrite Hcur. unfold reshape. simpl.
  apply Nat.eqb_neq in Hsize. by rewrite Hsize.
Qed.

Lemma Array_with_std_data_wrong_size_witness :
  let a := Array.mk [2; 3]%Z (Scalar (fl 2)) "linear" "average" 0%nat in
  let cur := mk_ndarray [2; 3]%nat (replicate 6 (fl 0)) in
  let s := mk_state a ({[ 0%nat := cur ]} : gmap loc ndarray) in
  with_std_data (vector [1; 2]%Z) true s
  = (Raise (ValueError "cannot reshape array of size 2 into shape (2,3)"), s).
Proof.
  intros a cur s.
  apply (Array_with_std_data_wrong_size s cur (vector [1; 2]%Z) (fl 2) true).
  - reflexivity.
  - by_evaluation.
  - simpl. discriminate.
Defined.

Lemma with__value_same (a : Array.t) : with__value (_value a) a = a.
Proof. by destruct a. Qed.

(** What [with_std_data] leaves behind: the state it found (when it
    raised, or not), or the Array rebound to a new array. *)
Lemma with_std_data_outcome (d : ndarray) (det : bool) (s : state Array.t) :
  (exists e, with_std_data d det s = (Raise e, s))
  \/ (exists new, with_std_data d det s
                  = (Ok tt, mk_state (with__value (fresh (dom (heap s))) (self s))
                                     (<[fresh (dom (heap s)) := new]> (heap s)))).
Proof.
  run_method. destruct (multiply _ d) as [scaled|e]; simpl; [|by left; eexists].
  unfold value. destruct (heap s !! _value (self s)) as [cur|]; simpl; [|by left; eexists].
  destruct (reshape scaled (np_shape cur)) as [new|e]; simpl; [|by left; eexists].
  right. by eexists.
Qed.

Lemma set_value_outcome (v : pyval) (s : state Array.t) :
  (exists e, set_value v s = (Raise e, s))
  \/ (exists l, set_value v s = (Ok tt, mk_state (with__value l (self s)) (heap s))).
Proof.
  destruct v; try (left; eexists; reflexivity).
  run_method. destruct (heap s !! _value (self s)) as [cur|]; simpl; [|by left; eexists].
  destruct (heap s !! l) as [new|]; simpl; [|by left; eexists].
  case_bool_decide; [by left; eexists|right; by eexists].
Qed.

Lemma recombine_unfold (others : list Array.t) (s : state Array.t) :
  recombine others s
  = if (recombination (self s) =? "average")%string then
      match comprehension (self s :: others) (fun p => call p to_std_data) s with
      | (Ok rows, s1) =>
          match mean_axis0 rows with
          | Ok m => with_std_data m true s1
          | Raise e => (Raise e, s1)
          end
      | (Raise e, s1) => (Raise e, s1)
      end
    else
      (Raise (ValueError ("Unknown recombination " +:+ dquote
                          +:+ recombination (self s) +:+ dquote)), s).
Proof.
  unfold recombine, bind, _get_parameter_value_recombination, gets, get, lift, raise.
  destruct (_ =? _)%string; [|done].
  by destruct (comprehension _ _ s) as [[rows|e] s1].
Qed.

Lemma recombine_outcome (others : list Array.t) (s : state Array.t) :
  (exists e, recombine others s = (Raise e, s))
  \/ (exists new, recombine others s
                  = (Ok tt, mk_state (with__value (fresh (dom (heap s))) (self s))
                                     (<[fresh (dom (heap s)) := new]> (heap s)))).
Proof.
  rewrite recombine_unfold.
  destruct (_ =? _)%string; [|left; by eexists].
  pose proof (comprehension_to_std_data_state (self s :: others) s) as Hrows.
  destruct (comprehension _ _ s) as [[rows|e] s1]; simpl in Hrows; subst s1;
    [|left; by eexists].
  destruct (mean_axis0 rows) as [m|e]; [|left; by eexists].
  apply with_std_data_outcome.
Qed.

(** A mutator ends in one of two ways: it raised and left the state it
    found, or it returned and rebound [_value], the store being the one it
    found with at most one array more. *)
Lemma mutator_outcome (m : M (state Array.t) unit) (s : state Array.t) :
  mutator m ->
  (exists e, m s = (Raise e, s))
  \/ (exists l, m s = (Ok tt, mk_state (with__value l (self s)) (heap s)))
  \/ (exists new, m s = (Ok tt, mk_state (with__value (fresh (dom (heap s))) (self s))
                                         (<[fresh (dom (heap s)) := new]> (heap s)))).
Proof.
  intros [v|d det|others].
  - destruct (set_value_outcome v s) as [?|?]; auto.
  - destruct (with_std_data_outcome d det s) as [?|?]; auto.
  - destruct (recombine_outcome others s) as [?|?]; auto.
Qed.

(** X3.  The value of an Array is always an array of the store that has
    the shape given at construction: [__init__] makes it so, and the value
    setter, [with_std_data] and [recombine] keep it so, whether they return
    or raise; and the child that [spawn_child] returns is in the same
    case. *)
Theorem Array_value_has_declared_shape :
  (forall T (s s' : state T) shape sigma distribution recombination a,
     __init__ shape sigma distribution recombination s = (Ok a, s') ->
     consistent (mk_state a (heap s')))
  /\ (forall m s, mutator m -> consistent s -> consistent (snd (m s)))
  /\ (forall s s' child, consistent s -> spawn_child s = (Ok child, s') ->
        consistent s' /\ consistent (mk_state child (heap s'))).
Proof.
  split; [|split].
  - intros T s s' shape sigma distribution recombination a. apply init_consistent.
  - intros m s Hm Hs. by apply mutator_consistent.
  - intros s s' child (cur & Hcur & Hshape). run_method.
    destruct (zeros _) as [z|e]; simpl; [|done]. intros [= <- <-].
    assert (Hkept : <[fresh (dom (heap s)) := z]> (heap s) !! _value (self s) = Some cur).
    { by apply (keeps_alloc z s). }
    split; exists cur; simpl; by split.
Qed.

(** X4.  No method of Array writes into an array: the value setter,
    [with_std_data] and [recombine] leave every array of the store as it
    is, change no attribute of the Array other than [_value], and when they
    raise they leave the Array and the store exactly as they found them;
    [to_std_data] changes nothing at all; [spawn_child] leaves the parent
    and every array as they are. *)
Theorem Array_methods_frame :
  (forall m, mutator m ->
     keeps_arrays m
     /\ forall s, (exists l, self (snd (m s)) = with__value l (self s))
                  /\ forall e s', m s = (Raise e, s') -> s' = s)
  /\ (forall s, snd (to_std_data s) = s)
  /\ (keeps_arrays spawn_child /\ forall s, self (snd (spawn_child s)) = self s).
Proof.
  split; [|split; [|split]].
  - intros m Hm. split; [by apply keeps_mutator|]. intros s.
    destruct (mutator_outcome m s Hm) as [[e Hr]|[[l Hr]|[new Hr]]]; rewrite Hr; simpl.
    + split; [exists (_value (self s)); by rewrite with__value_same|].
      by intros e' s' [= _ <-].
    + split; [by eexists|done].
    + split; [by eexists|done].
  - apply to_std_data_state.
  - unfold spawn_child, super_spawn_child, __init__. repeat keeps_step.
    all: apply keeps_pure; intros s; unfold lift; simpl; done.
  - intros s. run_method. by destruct (zeros _).
Qed.

Lemma Array_value_has_declared_shape_witness :
  let a := Array.mk [3%Z] (Scalar (fl 2)) "linear" "average" 0%nat in
  let s := mk_state a ({[ 0%nat := vector [0; 0; 0]%Z ]} : gmap loc ndarray) in
  consistent s
  /\ consistent (snd (with_std_data (vector [1; 2; 3]%Z) true s))
  /\ consistent (snd (with_std_data (vector [1; 2]%Z) true s)).
Proof.
  intros a s.
  destruct Array_value_has_declared_shape as (Hinit & Hkeep & _).
  assert (Hs : consistent s).
  { apply (Hinit unit (mk_state tt ∅) (mk_state tt (heap s)) [3%Z] (Scalar (fl 2))
                 "linear" "average" a).
    by_evaluation. }
  split; [exact Hs|]. split; apply Hkeep; (constructor || exact Hs).
Defined.

Lemma Array_methods_frame_witness :
  let a := Array.mk [3%Z] (Scalar (fl 2)) "linear" "average" 0%nat in
  let s := mk_state a ({[ 0%nat := vector [2; 4; 6]%Z ]} : gmap loc ndarray) in
  heap (snd (with_std_data (vector [1; 1; 1]%Z) true s)) !! 0%nat = Some (vector [2; 4; 6]%Z)
  /\ snd (with_std_data (vector [1; 1]%Z) true s) = s
  /\ snd (to_std_data s) = s
  /\ self (snd (spawn_child s)) = a.
Proof.
  intros a s.
  destruct Array_methods_frame as (Hmut & Hstd & Hkeep & Hspawn).
  destruct (Hmut (with_std_data (vector [1; 1; 1]%Z) true)) as [Hkeeps _]; [constructor|].
  destruct (Hmut (with_std_data (vector [1; 1]%Z) true)) as [_ Hraise]; [constructor|].
  split; [apply Hkeeps; by_evaluation|].
  split; [|split; [apply Hstd|apply Hspawn]].
  destruct (Hraise s) as [_ Hsame].
  apply (Hsame (ValueError "cannot reshape array of size 2 into shape (3,)")).
  by_evaluation.
Defined.

(** X5.  Right after [child = parent.spawn_child()], the child has the
    hyper-parameters of its parent and [child.to_std_data()] returns what
    [parent.to_std_data()] returns. *)
Theorem Array_spawn_child_same_std_data (s s' : state Array.t) (child : Array.t)
    (cur : ndarray) :
  heap s !! _value (self s) = Some cur ->
  spawn_child s = (Ok child, s') ->
  shape child = shape (self s)
  /\ sigma child = sigma (self s)
  /\ distribution child = distribution (self s)
  /\ recombination child = recombination (self s)
  /\ fst (to_std_data (mk_state child (heap s'))) = fst (to_std_data s)
  /\ fst (to_std_data s') = fst (to_std_data s).
Proof.
  intros Hcur. run_method. destruct (zeros _) as [z|e]; simpl; [|done].
  intros [= <- <-]. simpl. do 4 (split; [done|]).
  assert (Hkept : <[fresh (dom (heap s)) := z]> (heap s) !! _value (self s) = Some cur).
  { by apply (keeps_alloc z s). }
  unfold value. rewrite Hkept, Hcur. by destruct (divide _ _).
Qed.

Lemma Array_spawn_child_same_std_data_witness :
  let a := Array.mk [3%Z] (Scalar (fl 2)) "linear" "average" 0%nat in
  let s := mk_state a ({[ 0%nat := vector [2; 4; 6]%Z ]} : gmap loc ndarray) in
  let child := with__value 0%nat (Array.mk [3%Z] (Scalar (fl 2)) "linear" "average" 1%nat) in
  let s' := snd (spawn_child s) in
  shape child = shape (self s)
  /\ sigma child = sigma (self s)
  /\ distribution child = distribution (self s)
  /\ recombination child = recombination (self s)
  /\ fst (to_std_data (mk_state child (heap s'))) = fst (to_std_data s)
  /\ fst (to_std_data s') = fst (to_std_data s).
Proof.
  intros a s child s'.
  apply (Array_spawn_child_same_std_data s s' child (vector [2; 4; 6]%Z)).
  - by_evaluation.
  - by_evaluation.
Defined.



(** X7.  The standardized data of an Array with a float sigma has the
    size of the declared shape: whenever [to_std_data] returns, on an Array
    whose value has the declared shape, the result is a flat array with as
    many elements as the declared shape holds; and this is so as well
    after the value setter, [with_std_data] or [recombine], whether they
    returned or raised. *)
Theorem Array_std_data_dimension (s : state Array.t) (x : float64) :
  consistent s ->
  sigma (self s) = Scalar x ->
  (forall r s', to_std_data s = (Ok r, s') ->
     np_shape r = [size_of (declared_shape (self s))])
  /\ forall m, mutator m ->
       forall r s', to_std_data (snd (m s)) = (Ok r, s') ->
         np_shape r = [size_of (declared_shape (self s))].
Proof.
  assert (Hdim : forall s0 : state Array.t, consistent s0 -> sigma (self s0) = Scalar x ->
            forall r s', to_std_data s0 = (Ok r, s') ->
              np_shape r = [size_of (declared_shape (self s0))]).
  { intros [a h] (cur & Hcur & Hshape) Hsig r s'. simpl in *.
    rewrite (to_std_data_scalar a h cur x Hsig Hcur). intros [= <- _].
    simpl. by rewrite Hshape. }
  intros Hs Hsig. split; [by apply Hdim|]. intros m Hm r s' Hr.
  pose proof (mutator_consistent m s Hm Hs) as Hs'.
  assert (Hself : exists l, self (snd (m s)) = with__value l (self s)).
  { destruct (mutator_outcome m s Hm) as [[e He]|[[l Hl]|[new Hnew]]].
    - rewrite He. exists (_value (self s)). simpl. by rewrite with__value_same.
    - rewrite Hl. by eexists.
    - rewrite Hnew. by eexists. }
  destruct Hself as [l Hself].
  rewrite (Hdim (snd (m s)) Hs' ltac:(by rewrite Hself) r s' Hr). by rewrite Hself.
Qed.

Lemma Array_std_data_dimension_witness :
  let a := Array.mk [2; 3]%Z (Scalar (fl 2)) "linear" "average" 0%nat in
  let s := mk_state a ({[ 0%nat := mk_ndarray [2; 3]%nat (replicate 6 (fl 1)) ]}
                         : gmap loc ndarray) in
  (forall r s', to_std_data s = (Ok r, s') -> np_shape r = [6%nat])
  /\ forall m, mutator m ->
       forall r s', to_std_data (snd (m s)) = (Ok r, s') -> np_shape r = [6%nat].
Proof.
  intros a s. apply (Array_std_data_dimension s (fl 2)).
  - exists (mk_ndarray [2; 3]%nat (replicate 6 (fl 1))). split; [by_evaluation|reflexivity].
  - reflexivity.
Defined.

(** ** ParametersList and Tuple: assigning and reading back *)

Lemma dict_get_here {V} (pre rest : list (key * V)) (k : key) (x : V) :
  k ∉ map fst pre -> dict_get (pre ++ (k, x) :: rest) k = Ok x.
Proof.
  induction pre as [|[k' y] pre IH]; simpl; intros Hk.
  - by rewrite bool_decide_eq_true_2.
  - apply not_elem_of_cons in Hk as [Hne Hk].
    rewrite bool_decide_eq_false_2; [|done]. by apply IH.
Qed.

Lemma dict_set_here {V} (pre rest : list (key * V)) (k : key) (x y : V) :
  k ∉ map fst pre -> dict_set (pre ++ (k, x) :: rest) k y = pre ++ (k, y) :: rest.
Proof.
  induction pre as [|[k' z] pre IH]; simpl; intros Hk.
  - by rewrite bool_decide_eq_true_2.
  - apply not_elem_of_cons in Hk as [Hne Hk].
    rewrite bool_decide_eq_false_2; [|done]. by rewrite IH.
Qed.

(** The keys of the positions from [i] on stay out of [pre] when the entry
    of position [i] is added to it. *)
Lemma later_keys_fresh {V} (mk_key : nat -> key) (pre : list (key * V)) (i : nat) (x : V) :
  (forall n m, mk_key n = mk_key m -> n = m) ->
  (forall k, (i <= k)%nat -> mk_key k ∉ map fst pre) ->
  forall k, (S i <= k)%nat -> mk_key k ∉ map fst (pre ++ [(mk_key i, x)]).
Proof.
  intros Hinj Hpre k Hk. rewrite map_app. simpl.
  rewrite elem_of_app, list_elem_of_singleton. intros [Hin|Heq].
  - apply (Hpre k); [lia|done].
  - apply Hinj in Heq. lia.
Qed.


Lemma KInt_of_nat_inj (n m : nat) : KInt (Z.of_nat n) = KInt (Z.of_nat m) -> n = m.
Proof. intros [= Heq]. lia. Qed.




Lemma Tuple_loop_assigned {Q} `{Core.IsParameter Q}
    (ps : list (item Q)) (vs : list pyval) (ps' : list Q) (rest : list (key * item Q)) :
  Forall3 Assignment.tuple_assigned ps vs ps' ->
  forall (pre : list (key * item Q)) (i : nat),
    (forall k, (i <= k)%nat -> KInt (Z.of_nat k) ∉ map fst pre) ->
    for_each (enumerate_from i vs) Tuple.set_item
      (Tuple.mk (pre ++ Tuple.entries_from i ps ++ rest))
    = (Ok tt, Tuple.mk (pre ++ Tuple.entries_from i (map Param ps') ++ rest)).
Proof.
  induction 1 as [|x v p' ps vs ps' Hx _ IH]; intros pre i Hpre; [done|].
  change (enumerate_from i (v :: vs)) with ((i, v) :: enumerate_from (S i) vs).
  change (Tuple.entries_from i (x :: ps) ++ rest)
    with ((KInt (Z.of_nat i), Param (Core.as_parameter x))
            :: Tuple.entries_from (S i) ps ++ rest).
  change (Tuple.entries_from i (map Param (p' :: ps')) ++ rest)
    with ((KInt (Z.of_nat i), @Param Q p') :: Tuple.entries_from (S i) (map Param ps') ++ rest).
  assert (Hi : KInt (Z.of_nat i) ∉ map fst pre) by (apply Hpre; lia).
  assert (Hstep : Tuple.set_item (i, v)
            (Tuple.mk (pre ++ (KInt (Z.of_nat i), Param (Core.as_parameter x))
                           :: Tuple.entries_from (S i) ps ++ rest))
          = (Ok tt, Tuple.mk (pre ++ (KInt (Z.of_nat i), Param p')
                                  :: Tuple.entries_from (S i) ps ++ rest))).
  { unfold Tuple.set_item, Tuple.__getitem__, bind, get, lift. simpl.
    rewrite dict_get_here; [|done]. unfold Core.call_on. simpl.
    destruct Hx as [Hset _]. rewrite Hset. simpl. by rewrite dict_set_here. }
  simpl. rewrite (bind_Ok _ _ _ _ _ Hstep).
  rewrite !(cons_middle _ pre), !app_assoc.
  rewrite <- !(app_assoc (pre ++ _)).
  apply IH. by apply later_keys_fresh; [apply KInt_of_nat_inj|].
Qed.

(** X9.  A [Tuple] built from [ps] and assigned a tuple [vs] of as many
    values, each of which the child at its position accepts through its
    own setter: the assignment succeeds, child by child in the order of the
    constructor arguments, and [value] then returns [vs]. *)
Theorem Tuple_set_then_get {Q} `{Core.IsParameter Q}
    (ps : list (item Q)) (t : Tuple.t Q) (vs : list pyval) (ps' : list Q) :
  Tuple.__init__ ps = Ok t ->
  Forall3 Assignment.tuple_assigned ps vs ps' ->
  Tuple.set_value (VTuple vs) t = (Ok tt, Tuple.mk (Tuple.entries_from 0 (map Param ps')))
  /\ Tuple.value (Tuple.mk (Tuple.entries_from 0 (map Param ps'))) = Ok (VTuple vs).
Proof.
  intros Hinit Hall. split.
  - assert (Ht : t = Tuple.mk (Tuple.entries_from 0 ps)).
    { destruct t as [d]. f_equal. change d with (Tuple._parameters (Tuple.mk d)).
      by apply Tuple_init_entries. }
    rewrite Ht. pose proof (Tuple_loop_assigned ps vs ps' [] Hall [] 0) as Hloop.
    rewrite !app_nil_r in Hloop. apply Hloop.
    intros k _ Hin. by apply elem_of_nil in Hin.
  - unfold Tuple.value.
    assert (Hentries : forall i (qs : list Q),
              Tuple.entries_from i (map Param qs)
              = map (fun kp => (KInt (Z.of_nat (fst kp)), snd kp))
                    (enumerate_from i (map Param qs))).
    { intros i qs. revert i. induction qs as [|q qs IHq]; intros i; [done|].
      change (Tuple.entries_from i (map Param (q :: qs)))
        with ((KInt (Z.of_nat i), @Param Q q) :: Tuple.entries_from (S i) (map Param qs)).
      by rewrite IHq. }
    pose proof (sorted_storage (fun n => KInt (Z.of_nat n)) (map Param ps')
                  (Tuple.entries_from 0 (map Param ps'))
                  int_of_key_KInt) as Hsorted.
    rewrite Hentries in Hsorted. specialize (Hsorted (reflexivity _)).
    simpl. rewrite Hentries.
    destruct (sorted _ _) as [l|e]; simpl in *; [|done].
    injection Hsorted as ->.
    assert (Hseq : sequence (map Core.item_value (map Param ps')) = Ok vs).
    { apply sequence_Ok. clear -Hall.
      induction Hall as [|x v p' ps vs ps' Hx _ IH]; simpl; constructor; [|done].
      by destruct Hx as [_ Hv]. }
    by rewrite Hseq.
Qed.

Lemma Tuple_set_then_get_witness :
  let ps : list (item Constant.t) := [Raw (VInt 7); Param (VStr "a")] in
  Tuple.set_value (VTuple [VInt 1; VStr "b"]) (Tuple.mk (Tuple.entries_from 0 ps))
  = (Ok tt, Tuple.mk (Tuple.entries_from 0 (map Param [VInt 1; VStr "b" : Constant.t])))
  /\ Tuple.value (Tuple.mk (Tuple.entries_from 0 (map Param [VInt 1; VStr "b" : Constant.t])))
     = Ok (VTuple [VInt 1; VStr "b"]).
Proof.
  intros ps.
  apply (Tuple_set_then_get ps (Tuple.mk (Tuple.entries_from 0 ps))
           [VInt 1; VStr "b"] [VInt 1; VStr "b"]).
  - reflexivity.
  - repeat constructor.
Defined.

(** ** ParametersList and Tuple: an assignment that a child rejects *)





(** ** ParametersList and Tuple: what no assignment changes *)

Lemma dict_set_kinds {P} (d : list (key * item P)) (k : key) (x y : item P) :
  dict_get d k = Ok x ->
  Assignment.is_parameter y = Assignment.is_parameter x ->
  map (fun kx => (fst kx, Assignment.is_parameter (snd kx))) (dict_set d k y)
  = map (fun kx => (fst kx, Assignment.is_parameter (snd kx))) d.
Proof.
  intros Hget Hkind. induction d as [|[k' z] d IH]; simpl in *; [done|].
  case_bool_decide; simpl.
  - injection Hget as ->. by rewrite Hkind.
  - f_equal. by apply IH.
Qed.

Lemma for_each_invariant {S A B} (f : S -> B) (body : A -> M S unit) (l : list A) :
  (forall x s, f (snd (body x s)) = f s) ->
  forall s, f (snd (for_each l body s)) = f s.
Proof.
  intros Hbody. induction l as [|x l IH]; intros s; simpl; [done|].
  unfold bind. pose proof (Hbody x s) as Hx.
  destruct (body x s) as [[[]|e] s1]; simpl in *; [|done]. by rewrite IH.
Qed.

Lemma same_keys_and_kinds {P} (d d' : list (key * item P)) :
  map (fun kx => (fst kx, Assignment.is_parameter (snd kx))) d'
  = map (fun kx => (fst kx, Assignment.is_parameter (snd kx))) d ->
  Forall2 (fun old new => fst new = fst old
                          /\ Assignment.is_parameter (snd new)
                             = Assignment.is_parameter (snd old)) d d'.
Proof.
  revert d'. induction d as [|[k x] d IH]; intros [|[k' x'] d'] Heq; simpl in *;
    try discriminate; [constructor|].
  injection Heq as Hk Hx Hrest. constructor; [done|]. by apply IH.
Qed.

(** X11.  Whatever is assigned to the [value] of a [ParametersList] or of
    a [Tuple], in whatever state, and whether the assignment succeeds or
    raises part of the way: the container afterwards has the same keys in
    the same order, and a Parameter under every key under which it had
    one.  No assignment adds or removes an entry, and none replaces a
    Parameter; a [Tuple], which assigns through its children only, keeps
    under every key an entry of the kind it had. *)
Theorem setters_keep_keys_and_parameters {P} `{Core3.IsParameter P} {Q} `{Core.IsParameter Q}
    (v : pyval) (s : state (ParametersList.t P)) (t : Tuple.t Q) :
  Forall2 (fun old new => fst new = fst old
                          /\ (Assignment.is_parameter (snd old) = true ->
                              Assignment.is_parameter (snd new) = true))
          (ParametersList._parameters (self s))
          (ParametersList._parameters (self (snd (ParametersList.set_value v s))))
  /\ Forall2 (fun old new => fst new = fst old
                             /\ Assignment.is_parameter (snd new)
                                = Assignment.is_parameter (snd old))
             (Tuple._parameters t)
             (Tuple._parameters (snd (Tuple.set_value v t))).
Proof.
  split.
  - eapply Forall2_impl; [apply same_keys_and_kinds|].
    + destruct v; try done. simpl.
      apply (for_each_invariant
               (fun s : state (ParametersList.t P) =>
                  map (fun kx => (fst kx, Assignment.is_parameter (snd kx)))
                      (ParametersList._parameters (self s)))).
      intros [k w] s0. unfold ParametersList.set_item, bind, get, lift. simpl.
      destruct (dict_get _ _) as [[u|p]|e] eqn:Hget; simpl; [| |done].
      * by apply (dict_set_kinds _ _ (Raw u)).
      * unfold Objects.call_on. destruct (Core3.set_value_of _ _) as [r s1]. simpl.
        by apply (dict_set_kinds _ _ (Param p)).
    + intros old new [Hk Hx]. split; [done|]. by rewrite Hx.
  - apply same_keys_and_kinds.
    destruct v; try done. simpl.
    apply (for_each_invariant
             (fun t : Tuple.t Q =>
                map (fun kx => (fst kx, Assignment.is_parameter (snd kx)))
                    (Tuple._parameters t))).
    intros [k w] t0. unfold Tuple.set_item, Tuple.__getitem__, bind, get, lift. simpl.
    destruct (dict_get _ _) as [x|e] eqn:Hget; simpl; [|done].
    unfold Core.call_on. destruct (Core.set_value_of _ _) as [r p']. simpl.
    destruct x as [u|p]; [done|]. simpl.
    by apply (dict_set_kinds _ _ (Param p)).
Qed.

(** ** ParametersList and Tuple: keys that are no integers *)

Lemma sequence_first_Raise {A} (pre : list (result A)) (e : exn) (rest : list (result A)) :
  Forall (fun r => exists a, r = Ok a) pre ->
  sequence (pre ++ Raise e :: rest) = Raise e.
Proof.
  induction 1 as [|r pre [a ->] _ IH]; simpl; [done|]. by rewrite IH.
Qed.

(** X12.  The two [value] getters order the entries by [int(key)], and
    compute that integer for every key before they read any child.  When
    the container has a key that [int()] rejects (a [str] that is no
    integer literal), the getter raises the [ValueError] of the first such
    key, in the order of the dictionary, whatever the children are. *)
Theorem value_needs_integer_keys {P} `{Core3.IsParameter P} {Q} `{Core.IsParameter Q}
    (pre rest : list (key * item P)) (k : key) (x : item P)
    (pre' rest' : list (key * item Q)) (x' : item Q) (e : exn) :
  Forall (fun kx => exists z, int_of_key (fst kx) = Ok z) pre ->
  Forall (fun kx => exists z, int_of_key (fst kx) = Ok z) pre' ->
  int_of_key k = Raise e ->
  ParametersList.value (ParametersList.mk (pre ++ (k, x) :: rest)) = Raise e
  /\ Tuple.value (Tuple.mk (pre' ++ (k, x') :: rest')) = Raise e.
Proof.
  intros Hpre Hpre' Hk.
  assert (Hsorted : forall V (d0 d1 : list (key * V)) (y : V),
            Forall (fun kx => exists z, int_of_key (fst kx) = Ok z) d0 ->
            sorted (fun kx : key * V => int_of_key (fst kx)) (d0 ++ (k, y) :: d1) = Raise e).
  { intros V d0 d1 y Hd0. unfold sorted. rewrite map_app. simpl. rewrite Hk.
    rewrite sequence_first_Raise; [done|].
    induction Hd0 as [|kx d0 Hkx _ IH]; simpl; by constructor. }
  split.
  - unfold ParametersList.value. simpl. by rewrite Hsorted.
  - unfold Tuple.value. simpl. by rewrite Hsorted.
Qed.

Lemma value_needs_integer_keys_witness :
  let e := ValueError "invalid literal for int() with base 10: 'x'" in
  ParametersList.value (P := Array.t)
    (ParametersList.mk ([(KStr "0", Raw (VInt 7))] ++ (KStr "x", Raw (VInt 8)) :: [])) = Raise e
  /\ Tuple.value (P := Constant.t)
       (Tuple.mk ([(KInt 0, Param (VInt 7))] ++ (KStr "x", Param (VInt 8)) :: [])) = Raise e.
Proof.
  intros e.
  apply (value_needs_integer_keys (P := Array.t) (Q := Constant.t)
           [(KStr "0", Raw (VInt 7))] [] (KStr "x") (Raw (VInt 8))
           [(KInt 0, Param (VInt 7))] [] (Param (VInt 8)) e).
  - repeat constructor. by exists 0%Z.
  - repeat constructor. by exists 0%Z.
  - reflexivity.
Defined.

(** ** Instrumentation: the constructor and the constraint check *)

(** X13.  [cheap_constraint_check], called on an object [self] of the
    store, works on a child that it spawns for the call: whatever the
    arguments, and whatever the assignment or the constraint returns or
    raises, every object that existed before the call, [self] and the
    copy that its memo names included, is as it was; its memo is neither
    read nor set, and the only object made is the spawned child. *)
Theorem cheap_constraint_check_frame {P} `{Core.IsParameter P}
    (satisfies_constraint : M (Instrumentation.t P) bool)
    (st : Instrumentation.store P) (self : Instrumentation.oid) (o : Instrumentation.t P)
    (args : list pyval) (kwargs : list (string * pyval)) :
  st !! self = Some o ->
  let st' := snd (Constraint.cheap_constraint_check satisfies_constraint self args kwargs st) in
  (forall j, j ∈ dom st -> st' !! j = st !! j)
  /\ st' !! self = Some o
  /\ dom st' = {[ fresh (dom st) ]} ∪ dom st.
Proof.
  intros Ho st'.
  assert (Hfresh : fresh (dom st) ∉ dom st) by apply is_fresh.
  assert (Hshape : exists child, st' = <[fresh (dom st) := child]> st).
  { subst st'. unfold Constraint.cheap_constraint_check.
    assert (Hspawn : exists child0,
              Instrumentation.spawn_child self st
              = (Ok (fresh (dom st)), <[fresh (dom st) := child0]> st)).
    { unfold Instrumentation.spawn_child.
      rewrite (bind_Ok _ _ _ _ _ (attr_Some _ _ _ Ho)). by eexists. }
    destruct Hspawn as [child0 Hspawn].
    rewrite (bind_Ok _ _ _ _ _ Hspawn).
    unfold bind at 1. unfold Instrumentation.as_Tuple at 1.
    unfold bind at 1. unfold Instrumentation.attr at 1.
    rewrite lookup_insert_eq.
    destruct (Tuple.set_value _ _) as [[[]|e] t'].
    - unfold Constraint.method_on, bind, Instrumentation.attr.
      rewrite lookup_insert_eq.
      destruct (satisfies_constraint _) as [r o']. simpl.
      eexists. by rewrite !insert_insert_eq.
    - simpl. eexists. by rewrite insert_insert_eq. }
  destruct Hshape as [child ->].
  assert (Hother : forall j, j ∈ dom st ->
            (<[fresh (dom st) := child]> st : Instrumentation.store P) !! j = st !! j).
  { intros j Hj. apply lookup_insert_ne. by intros <-. }
  split; [done|]. split.
  - rewrite Hother; [done|]. apply elem_of_dom. by exists o.
  - by rewrite dom_insert_L.
Qed.

Lemma cheap_constraint_check_frame_witness :
  let satisfies_constraint : M (Instrumentation.t Constant.t) bool :=
    fun o => (Ok true, o) in
  let o := Instrumentation.mk [(KInt 0, Param (VTuple [VInt 1])); (KInt 1, Param (VDict []))]
                              None in
  let st : Instrumentation.store Constant.t := {[ 0%nat := o ]} in
  let st' := snd (Constraint.cheap_constraint_check satisfies_constraint 0%nat [VInt 5] [] st) in
  (forall j, j ∈ dom st -> st' !! j = st !! j)
  /\ st' !! 0%nat = Some o
  /\ dom st' = {[ fresh (dom st) ]} ∪ dom st.
Proof.
  intros satisfies_constraint o st.
  apply (cheap_constraint_check_frame satisfies_constraint st 0%nat o [VInt 5] []).
  reflexivity.
Defined.

(** X14.  [Instrumentation.__init__] either makes exactly one object or
    changes nothing.  When it succeeds, the new object has an identity no
    object had, its children are the [Tuple] of the positional arguments
    under the key [0] and the [Dict] of the keyword arguments under the
    key [1], in that order, and its memo is unset, which is what the
    conversions need of their receiver; every other object is as it was.
    When a constructor or a check raises, the store is unchanged. *)
Theorem Instrumentation_init_outcome {P} `{Core.IsParameter P}
    (Tuple_as_parameter : Tuple.t P -> P)
    (Dict__init__ : list (string * item P) -> result P)
    (_parameters_values : P -> list (item P))
    (args : list (item P)) (kwargs : list (string * item P))
    (st : Instrumentation.store P) :
  match Instrumentation.__init__ Tuple_as_parameter Dict__init__ _parameters_values
          args kwargs st with
  | (Ok self, st') =>
      (self ∉ dom st)
      /\ (exists a d,
            Tuple.__init__ args = Ok a
            /\ Dict__init__ kwargs = Ok d
            /\ st' = <[self := Instrumentation.mk
                                 [(KInt 0, Param (Tuple_as_parameter a)); (KInt 1, Param d)]
                                 None]> st)
      /\ Instrumentation.memo_ok st' self
      /\ (forall j, j ∈ dom st -> st' !! j = st !! j)
  | (Raise e, st') => st' = st
  end.
Proof.
  unfold Instrumentation.__init__, bind, lift, Instrumentation.new.
  destruct (Tuple.__init__ args) as [a|e] eqn:Ha; [|done].
  destruct (Dict__init__ kwargs) as [d|e] eqn:Hd; [|done].
  destruct (Tuple.__init__ [Param (Tuple_as_parameter a); Param d]) as [super|e] eqn:Hsuper;
    [|done].
  destruct (Core._sanity_check _) as [[]|e]; [|done].
  assert (Hfresh : fresh (dom st) ∉ dom st) by apply is_fresh.
  split; [done|]. split; [|split].
  - exists a, d. split; [done|]. split; [done|].
    by rewrite (Tuple_init_entries _ _ Hsuper).
  - unfold Instrumentation.memo_ok. by rewrite lookup_insert_eq.
  - intros j Hj. apply lookup_insert_ne. by intros <-.
Qed.

Lemma Instrumentation_init_outcome_witness :
  let Tuple_as_parameter : Tuple.t Constant.t -> Constant.t :=
    fun t => match Tuple.value t with Ok v => v | Raise _ => VNone end in
  let Dict__init__ : list (string * item Constant.t) -> result Constant.t :=
    fun _ => Ok (VDict []) in
  let _parameters_values : Constant.t -> list (item Constant.t) := fun _ => [] in
  let st : Instrumentation.store Constant.t :=
    {[ 0%nat := Instrumentation.mk [(KInt 0, Param (VTuple [])); (KInt 1, Param (VDict []))]
                                   None ]} in
  match Instrumentation.__init__ Tuple_as_parameter Dict__init__ _parameters_values
          [Raw (VInt 5)] [] st with
  | (Ok self, st') =>
      (self ∉ dom st)
      /\ (exists a d,
            Tuple.__init__ [Raw (VInt 5)] = Ok a
            /\ Dict__init__ [] = Ok d
            /\ st' = <[self := Instrumentation.mk
                                 [(KInt 0, Param (Tuple_as_parameter a)); (KInt 1, Param d)]
                                 None]> st)
      /\ Instrumentation.memo_ok st' self
      /\ (forall j, j ∈ dom st -> st' !! j = st !! j)
  | (Raise e, st') => st' = st
  end.
Proof.
  intros Tuple_as_parameter Dict__init__ _parameters_values st.
  apply (Instrumentation_init_outcome Tuple_as_parameter Dict__init__ _parameters_values
           [Raw (VInt 5)] [] st).
Defined.

(** ** Array: a sigma that is an array *)

Lemma blocks_of_one (n : nat) (data : list float64) :
  length data = n -> concat (map (expand [] []) (blocks n 1 data)) = data.
Proof.
  revert data. induction n as [|n IH]; intros [|x data] Hlen; simpl in *; try done.
  f_equal. rewrite drop_0. apply IH. lia.
Qed.

Lemma broadcast_to_same_flat (n : nat) (data : list float64) :
  length data = n -> broadcast_to (mk_ndarray [n] data) [n] = data.
Proof.
  intros Hlen. unfold broadcast_to. simpl. rewrite Nat.eqb_refl.
  by apply blocks_of_one.
Qed.

Lemma binary_same_flat (op : float64 -> float64 -> float64) (n : nat) (xs ys : list float64) :
  length xs = n -> length ys = n ->
  binary op (mk_ndarray [n] xs) (mk_ndarray [n] ys) = Ok (mk_ndarray [n] (zip_with op xs ys)).
Proof.
  intros Hx Hy. unfold binary, broadcast_shapes. simpl. rewrite Nat.eqb_refl. simpl.
  by rewrite !broadcast_to_same_flat.
Qed.

Lemma zip_with_fdiv_fmul_cancel (bs ds : list float64) :
  Forall2 (fun b x => exists q, b = Fin q /\ q <> 0%Qc /\ exact_product q x = true) bs ds ->
  zip_with fdiv (zip_with fmul bs ds) bs = ds.
Proof.
  induction 1 as [|b x bs ds (q & -> & Hq & Hx) _ IH]; [done|].
  change (zip_with fdiv (zip_with fmul (Fin q :: bs) (x :: ds)) (Fin q :: bs))
    with (fdiv (fmul (Fin q) x) (Fin q) :: zip_with fdiv (zip_with fmul bs ds) bs).
  rewrite fdiv_fmul_cancel; [|done..]. by rewrite IH.
Qed.

(** X15.  The round trip of the standardized data with a sigma that is an
    array.  For an Array of a one-dimensional shape [(n,)] whose sigma is
    an array of [n] finite floats other than zero: [with_std_data(d)]
    followed by [to_std_data()] returns [d], for every vector [d] of [n]
    floats whose products by the elements of sigma, taken element by
    element, are all exact. *)
Theorem Array_array_sigma_round_trip (a : Array.t) (h : gmap loc ndarray)
    (cur b d : ndarray) (n : nat) (det : bool) :
  sigma a = Arr b ->
  np_shape b = [n] ->
  Forall2 (fun y x => exists q, y = Fin q /\ q <> 0%Qc /\ exact_product q x = true)
          (np_data b) (np_data d) ->
  h !! _value a = Some cur -> np_shape cur = [n] ->
  np_shape d = [n] -> length (np_data d) = n ->
  exists s', with_std_data d det (mk_state a h) = (Ok tt, s')
             /\ to_std_data s' = (Ok d, s').
Proof.
  intros Hsig Hbs Hb Hcur Hcs Hds Hdl.
  pose proof (Forall2_length _ _ _ Hb) as Hbl. rewrite Hdl in Hbl.
  destruct b as [bsh bs], d as [dsh ds], cur as [csh cs]. simpl in *. subst bsh dsh csh.
  eexists. split.
  - run_method. rewrite Hsig. simpl. rewrite (binary_same_flat fmul n bs ds Hbl Hdl).
    unfold value. rewrite Hcur. unfold reshape. simpl. rewrite Nat.eqb_refl. reflexivity.
  - unfold to_std_data, _get_parameter_value_sigma, deref, bind, ret, get, gets, lift.
    cbn [self heap with__value _value sigma fst snd]. rewrite Hsig, lookup_insert_eq.
    unfold divide.
    rewrite (binary_same_flat fdiv n (zip_with fmul bs ds) bs);
      [|rewrite length_zip_with; lia|done].
    unfold ravel. cbn [np_shape np_data]. rewrite size_of_flat.
    by rewrite zip_with_fdiv_fmul_cancel.
Qed.

Lemma Array_array_sigma_round_trip_witness :
  let a := Array.mk [3%Z] (Arr (vector [1; 2; 4]%Z)) "linear" "average" 0%nat in
  let h : gmap loc ndarray := {[ 0%nat := vector [0; 0; 0]%Z ]} in
  let d := vector [1; 2; 3]%Z in
  exists s', with_std_data d true (mk_state a h) = (Ok tt, s')
             /\ to_std_data s' = (Ok d, s').
Proof.
  intros a h d.
  apply (Array_array_sigma_round_trip a h (vector [0; 0; 0]%Z) (vector [1; 2; 4]%Z)
           d 3 true).
  - reflexivity.
  - reflexivity.
  - repeat constructor.
    + exists (Qc_of_Z 1). split; [reflexivity|]. split; [by_evaluation|reflexivity].
    + exists (Qc_of_Z 2). split; [reflexivity|]. split; [by_evaluation|reflexivity].
    + exists (Qc_of_Z 4). split; [reflexivity|]. split; [by_evaluation|reflexivity].
  - by_evaluation.
  - reflexivity.
  - reflexivity.
  - reflexivity.
Defined.

(** X16.  A sigma that is a matrix cannot scale the standardized data.
    For an Array whose sigma is an array of shape [(r, c)] with at least
    two rows and two columns, [with_std_data] on a flat vector of [r * c]
    floats, the size of its standardized data, raises the [ValueError] of
    NumPy's broadcasting in [sigma * data], and changes nothing. *)
Theorem Array_with_std_data_matrix_sigma (s : state Array.t) (b d : ndarray)
    (r c : nat) (det : bool) :
  sigma (self s) = Arr b ->
  np_shape b = [r; c] -> (2 <= r)%nat -> (2 <= c)%nat ->
  np_shape d = [(r * c)%nat] ->
  exists msg, with_std_data d det s = (Raise (ValueError msg), s).
Proof.
  intros Hsig Hb Hr Hc Hd.
  unfold with_std_data, _get_parameter_value_sigma, bind, gets, lift.
  rewrite Hsig. unfold multiply, binary, broadcast_shapes. rewrite Hb, Hd. simpl.
  assert (H1 : (c =? r * c)%nat = false) by (apply Nat.eqb_neq; nia).
  assert (H2 : (c =? 1)%nat = false) by (apply Nat.eqb_neq; lia).
  assert (H3 : (r * c =? 1)%nat = false) by (apply Nat.eqb_neq; nia).
  rewrite H1, H2, H3. by eexists.
Qed.

Lemma Array_with_std_data_matrix_sigma_witness :
  let sig := mk_ndarray [2; 2]%nat [fl 1; fl 1; fl 1; fl 1] in
  let a := Array.mk [2; 2]%Z (Arr sig) "linear" "average" 0%nat in
  let s := mk_state a ({[ 0%nat := mk_ndarray [2; 2]%nat [fl 0; fl 0; fl 0; fl 0] ]}
                         : gmap loc ndarray) in
  exists msg, with_std_data (vector [1; 2; 3; 4]%Z) true s = (Raise (ValueError msg), s).
Proof.
  intros sig a s.
  apply (Array_with_std_data_matrix_sigma s sig (vector [1; 2; 3; 4]%Z) 2 2 true).
  - reflexivity.
  - reflexivity.
  - lia.
  - lia.
  - reflexivity.
Defined.
